(** * codechain-web-wallet: HD key restoration, address issuance and the
      chain reducer

    A shallow embedding of [src/model/keystore.ts],
    [src/redux/chain/chainReducer.ts] and the state and event handlers of
    [src/components/RestoreWallet/RestoreWallet.tsx].

    - JavaScript numbers that hold derivation indices and nonces are
      non-negative integers; they are modelled by [N].  Addition and
      decimal rendering agree with IEEE doubles on every safe integer
      (below 2^53), which covers every index the wallet can reach.
    - [async] functions are computations in the monad [M]: they read and
      write the browser storage and either return, or propagate the
      exception of an awaited promise that rejected.
    - The [while] loops of the restore functions recurse on a bound on the
      number of iterations; [discover_terminates] shows that the bound
      the functions pass is never reached.
    - The key vault, the hash, the address encoders and the ledger API are
      libraries outside the repository; they are the methods of the class
      [Externals], and every statement holds for each instance of it. *)

From stdpp Require Import base numbers option list strings pretty gmap.

Local Open Scope string_scope.
Local Open Scope N_scope.

(** ** JavaScript primitives *)

(** [String(n)] for a non-negative integer [n], as used by [prefix + n]
    and by template literals. *)
Definition number_to_string (n : N) : string := pretty n.

(** [!n] for a number [n]: zero is falsy. *)
Definition js_not (n : N) : bool := n =? 0.

(** [xs.slice(0, end)]. *)
Definition slice0 {A} (xs : list A) (end_ : N) : list A := take (N.to_nat end_) xs.

(** [_.last(xs)]: [undefined] on the empty array. *)
Definition lodash_last {A} (xs : list A) : option A := last xs.

(** ** [src/model/address] *)

Inductive AddressType := Platform | Asset.

Global Instance AddressType_eq_dec : EqDecision AddressType.
Proof. solve_decision. Defined.

Definition NetworkId := string.

Module WalletAddress.
Record t := mk { name : string; address : string; type : AddressType }.
End WalletAddress.

(** ** [src/utils/storage] *)

Module StoredKey.
Record t := mk { pathIndex : N; type : AddressType; key : string }.
End StoredKey.

(** Modelled from the spec: the Local Key Index Store of section 4.4
    ([src/utils/storage] is not among the sources).  One slot per role
    holding the ordered key records ([None] when nothing was saved yet), and
    the session passphrase. *)
Record Storage := mkStorage {
  passphrase : option string;
  platformKeys : option (list StoredKey.t);
  assetKeys : option (list StoredKey.t)
}.

(** ** Outcomes and the monad of [async] functions *)

(** The result of a call into a library: a value (a promise that
    resolves), or an exception (a promise that rejects). *)
Inductive result (A : Type) : Type :=
| Resolves (a : A)
| Rejects (e : string).
Arguments Resolves {A} a.
Arguments Rejects {A} e.

Definition result_map {A B} (f : A → B) (r : result A) : result B :=
  match r with
  | Resolves a => Resolves (f a)
  | Rejects e => Rejects e
  end.

(** The outcome of a function of the module: it returns, it throws, or
    the bound on the iterations of its loop was reached. *)
Inductive outcome (A : Type) : Type :=
| Returns (a : A)
| Throws (e : string)
| OutOfFuel.
Arguments Returns {A} a.
Arguments Throws {A} e.
Arguments OutOfFuel {A}.

Definition outcome_map {A B} (f : A → B) (o : outcome A) : outcome B :=
  match o with
  | Returns a => Returns (f a)
  | Throws e => Throws e
  | OutOfFuel => OutOfFuel
  end.

Definition M (A : Type) : Type := Storage → outcome (A * Storage).

Global Instance M_ret : MRet M := λ A a st, Returns (a, st).
Global Instance M_bind : MBind M := λ A B f m st,
  match m st with
  | Returns (a, st') => f a st'
  | Throws e => Throws e
  | OutOfFuel => OutOfFuel
  end.

(** [await p] (or a call that may throw): the value, or the exception,
    which propagates to the caller.  The store as it is when an exception
    propagates is not tracked. *)
Definition await {A} (p : result A) : M A := λ st,
  match p with
  | Resolves a => Returns (a, st)
  | Rejects e => Throws e
  end.

Definition out_of_fuel {A} : M A := λ _, OutOfFuel.

Definition throw {A} (e : string) : M A := λ _, Throws e.

(** [v!.field]: reading a property of [undefined] throws a [TypeError]. *)
Definition defined {A} (v : option A) : M A :=
  match v with
  | Some a => mret a
  | None => throw "TypeError"
  end.

(** Modelled from the spec: [getPassphrase], [getPlatformKeys],
    [getAssetKeys], [savePlatformKeys] and [saveAssetKeys] of
    [src/utils/storage] (section 6: [loadKeys(role)],
    [saveKeys(role, records)] as a role-scoped full overwrite). *)
Definition getPassphrase : M (option string) := λ st, Returns (passphrase st, st).
Definition getPlatformKeys : M (option (list StoredKey.t)) :=
  λ st, Returns (platformKeys st, st).
Definition getAssetKeys : M (option (list StoredKey.t)) :=
  λ st, Returns (assetKeys st, st).
Definition savePlatformKeys (keys : list StoredKey.t) : M unit :=
  λ st, Returns (tt, mkStorage (passphrase st) (Some keys) (assetKeys st)).
Definition saveAssetKeys (keys : list StoredKey.t) : M unit :=
  λ st, Returns (tt, mkStorage (passphrase st) (platformKeys st) (Some keys)).

(** ** [src/model/keystore.ts] *)

Definition platformAddressPath : string := "m/44'/3276/0'/0/".
Definition assetAddressPath : string := "m/44'/3276/1'/0/".
Definition restoringCheckingRange : N := 10.

(** The account returned by [getPlatformAccount]; [nonce] is a U256. *)
Record Account := mkAccount { nonce : N }.

(** The variables of the scanning loop of the two restore functions:
    [currentPath], the arrays [platformAddresses] / [assetAddresses] and
    [platformKeys] / [assetKeys], and [lastValidPlatfromPathIndex] /
    [lastValidAssetPathIndex] ([None] while [undefined]). *)
Record Scan := mkScan {
  currentPath : N;
  addresses : list WalletAddress.t;
  keys : list StoredKey.t;
  lastValidPathIndex : option N
}.

(** The libraries the module calls: the vault ([codechain-keystore], through
    the singleton handle of [getCCKey]), the hash and the address encoders of
    [codechain-sdk], and the ledger probe ([src/networks/Api]).  A call
    either returns or throws; an awaited promise resolves or rejects.

    [getPublicKeyFromSeed seedHash path passphrase] stands for
    [ccKey.hdwseed.getPublicKeyFromSeed({ seedHash, path, passphrase })]:
    [seedHash] is [None] when it is [undefined], [passphrase] is [None] when
    the field is left out or [null]. *)
Class Externals := {
  getSeedHashes : result (list string);
  getPublicKeyFromSeed : option string → string → option string → result string;
  blake160 : string → string;
  PlatformAddress_fromAccountId : string → NetworkId → result string;
  AssetTransferAddress_fromTypeAndPayload : N → string → NetworkId → result string;
  AggsUTXO : Type;
  getPlatformAccount : string → NetworkId → result Account;
  getAggsUTXOList : string → NetworkId → result (list AggsUTXO)
}.

Section Keystore.

Context `{ext : Externals}.

(** [seedHashes[0]]: [undefined] when the vault holds no seed. *)
Definition getFirstSeedHash : M (option string) :=
  seedHashes ← await getSeedHashes;
  mret (head seedHashes).

Fixpoint restorePlatformLoop (fuel : nat) (seedHash : option string)
    (networkId : NetworkId) (s : Scan) : M Scan :=
  match fuel with
  | O => out_of_fuel
  | S fuel' =>
    if currentPath s <? restoringCheckingRange then
      passphrase ← getPassphrase;
      platformPubkey ← await (getPublicKeyFromSeed seedHash
        (platformAddressPath +:+ number_to_string (currentPath s)) passphrase);
      let key := blake160 platformPubkey in
      address ← await (PlatformAddress_fromAccountId key networkId);
      account ← await (getPlatformAccount address networkId);
      let lastValidPlatfromPathIndex :=
        if negb (String.eqb (number_to_string (nonce account)) "0")
        then Some (currentPath s) else lastValidPathIndex s in
      restorePlatformLoop fuel' seedHash networkId
        (mkScan (currentPath s + 1)
           (addresses s ++
              [WalletAddress.mk ("P-address " +:+ number_to_string (currentPath s))
                 address Platform])
           (keys s ++ [StoredKey.mk (currentPath s) Platform key])
           lastValidPlatfromPathIndex)
    else mret s
  end.

Definition restorePlatformAddresses (networkId : NetworkId)
    : M (list WalletAddress.t) :=
  seedHash ← getFirstSeedHash;
  s ← restorePlatformLoop (S (N.to_nat restoringCheckingRange)) seedHash networkId
        (mkScan 0 [] [] None);
  let '(retValue, retKeys) :=
    match lastValidPathIndex s with
    | None => ([], [])
    | Some lastValidPlatfromPathIndex =>
      if js_not lastValidPlatfromPathIndex then ([], [])
      else (slice0 (addresses s) (lastValidPlatfromPathIndex + 1),
            slice0 (keys s) (lastValidPlatfromPathIndex + 1))
    end in
  _ ← savePlatformKeys retKeys;
  mret retValue.

Definition createPlatformAddress (networkId : NetworkId) : M WalletAddress.t :=
  seedHash ← getFirstSeedHash;
  savedPlatformKeys ← getPlatformKeys;
  pathIndex ←
    match savedPlatformKeys with
    | Some (k :: ks) =>
      lastKey ← defined (lodash_last (k :: ks));
      mret (StoredKey.pathIndex lastKey + 1)
    | _ => mret 0
    end;
  let newPathIndex := pathIndex + 1 in
  platformPubkey ← await (getPublicKeyFromSeed seedHash
    (platformAddressPath +:+ number_to_string newPathIndex) None);
  let key := blake160 platformPubkey in
  _ ← match savedPlatformKeys with
      | Some (k :: ks) =>
        savePlatformKeys ((k :: ks) ++ [StoredKey.mk newPathIndex Platform key])
      | _ => savePlatformKeys [StoredKey.mk newPathIndex Platform key]
      end;
  address ← await (PlatformAddress_fromAccountId key networkId);
  mret (WalletAddress.mk ("P-address " +:+ number_to_string newPathIndex)
          address Platform).

Definition createAssetAddress (networkId : NetworkId) : M WalletAddress.t :=
  seedHash ← getFirstSeedHash;
  savedAssetKeys ← getAssetKeys;
  pathIndex ←
    match savedAssetKeys with
    | Some (k :: ks) =>
      lastKey ← defined (lodash_last (k :: ks));
      mret (StoredKey.pathIndex lastKey + 1)
    | _ => mret 0
    end;
  let newPathIndex := pathIndex + 1 in
  assetPubKey ← await (getPublicKeyFromSeed seedHash
    (assetAddressPath +:+ number_to_string pathIndex) None);
  let key := blake160 assetPubKey in
  _ ← match savedAssetKeys with
      | Some (k :: ks) =>
        saveAssetKeys ((k :: ks) ++ [StoredKey.mk newPathIndex Platform key])
      | _ => saveAssetKeys [StoredKey.mk newPathIndex Platform key]
      end;
  address ← await (AssetTransferAddress_fromTypeAndPayload 1 key networkId);
  mret (WalletAddress.mk ("A-address " +:+ number_to_string newPathIndex)
          address Asset).

Fixpoint restoreAssetLoop (fuel : nat) (seedHash : option string)
    (networkId : NetworkId) (s : Scan) : M Scan :=
  match fuel with
  | O => out_of_fuel
  | S fuel' =>
    if currentPath s <? restoringCheckingRange then
      passphrase ← getPassphrase;
      assetPubKey ← await (getPublicKeyFromSeed seedHash
        (assetAddressPath +:+ number_to_string (currentPath s)) passphrase);
      let key := blake160 assetPubKey in
      address ← await (AssetTransferAddress_fromTypeAndPayload 1 key networkId);
      aggsUTXO ← await (getAggsUTXOList address networkId);
      let lastValidAssetPathIndex :=
        if negb (Nat.eqb (length aggsUTXO) 0)
        then Some (currentPath s) else lastValidPathIndex s in
      restoreAssetLoop fuel' seedHash networkId
        (mkScan (currentPath s + 1)
           (addresses s ++
              [WalletAddress.mk ("A-address " +:+ number_to_string (currentPath s))
                 address Asset])
           (keys s ++ [StoredKey.mk (currentPath s) Asset key])
           lastValidAssetPathIndex)
    else mret s
  end.

Definition restoreAssetAddresses (networkId : NetworkId)
    : M (list WalletAddress.t) :=
  seedHash ← getFirstSeedHash;
  s ← restoreAssetLoop (S (N.to_nat restoringCheckingRange)) seedHash networkId
        (mkScan 0 [] [] None);
  let '(retValue, retKeys) :=
    match lastValidPathIndex s with
    | None => ([], [])
    | Some lastValidAssetPathIndex =>
      if js_not lastValidAssetPathIndex then ([], [])
      else (slice0 (addresses s) (lastValidAssetPathIndex + 1),
            slice0 (keys s) (lastValidAssetPathIndex + 1))
    end in
  _ ← saveAssetKeys retKeys;
  mret retValue.

(** *** Vocabulary of the statements *)

(** The indices [c, c+1, ..., c+n-1] in increasing order. *)
Fixpoint indices (c : N) (n : nat) : list N :=
  match n with
  | O => []
  | S n' => c :: indices (c + 1) n'
  end.

(** The value of [lastValid...PathIndex] after the indices [l] were
    scanned in order, when [used i] tells the evidence at index [i]. *)
Definition lastUsedFrom (used : N → bool) (acc : option N) (l : list N) : option N :=
  foldl (λ acc i, if used i then Some i else acc) acc l.

(** [saveKeys(role, keys)] on a store. *)
Definition withKeys (role : AddressType) (keys : list StoredKey.t) (st : Storage)
    : Storage :=
  match role with
  | Platform => mkStorage (passphrase st) (Some keys) (assetKeys st)
  | Asset => mkStorage (passphrase st) (platformKeys st) (Some keys)
  end.

(** What the restore functions keep of the candidates of a full scan:
    nothing when [lastValid...PathIndex] is [undefined] or falsy, otherwise
    the prefix up to and including that index. *)
Definition restored {A} (used : N → bool) (candidates : list A) : list A :=
  match lastUsedFrom used None (indices 0 (N.to_nat restoringCheckingRange)) with
  | None => []
  | Some lastValid =>
    if js_not lastValid then [] else slice0 candidates (lastValid + 1)
  end.

(** *** The two roles side by side

    The spec speaks of one discovery and one issuance operation per role;
    these select the function of the source for a role. *)

Definition discover (role : AddressType) : NetworkId → M (list WalletAddress.t) :=
  match role with
  | Platform => restorePlatformAddresses
  | Asset => restoreAssetAddresses
  end.

Definition issueNext (role : AddressType) : NetworkId → M WalletAddress.t :=
  match role with
  | Platform => createPlatformAddress
  | Asset => createAssetAddress
  end.

Definition keysOf (role : AddressType) (st : Storage) : option (list StoredKey.t) :=
  match role with
  | Platform => platformKeys st
  | Asset => assetKeys st
  end.

(** [pathFor role i]: the derivation path the restore loops pass to the
    vault at index [i]. *)
Definition pathFor (role : AddressType) (i : N) : string :=
  match role with
  | Platform => platformAddressPath +:+ number_to_string i
  | Asset => assetAddressPath +:+ number_to_string i
  end.

(** The display name the restore loops give the address at index [i]. *)
Definition displayName (role : AddressType) (i : N) : string :=
  match role with
  | Platform => "P-address " +:+ number_to_string i
  | Asset => "A-address " +:+ number_to_string i
  end.

(** The address encoder of a role. *)
Definition encode (role : AddressType) (key : string) (networkId : NetworkId)
    : result string :=
  match role with
  | Platform => PlatformAddress_fromAccountId key networkId
  | Asset => AssetTransferAddress_fromTypeAndPayload 1 key networkId
  end.

(** The ledger probe of a role: does [address] show usage evidence? *)
Definition usageEvidence (role : AddressType) (address : string)
    (networkId : NetworkId) : result bool :=
  match role with
  | Platform =>
    result_map (λ account, negb (String.eqb (number_to_string (nonce account)) "0"))
      (getPlatformAccount address networkId)
  | Asset =>
    result_map (λ aggsUTXO : list AggsUTXO, negb (Nat.eqb (length aggsUTXO) 0))
      (getAggsUTXOList address networkId)
  end.

(** The scanning loop of a role. *)
Definition restoreLoop (role : AddressType) :=
  match role with
  | Platform => restorePlatformLoop
  | Asset => restoreAssetLoop
  end.

(** The entries the loop of [role] pushes at index [i] when the vault
    answers [pubkey i] and the encoder [address i]. *)
Definition candidateAddress (role : AddressType) (address : N → string) (i : N)
    : WalletAddress.t :=
  WalletAddress.mk (displayName role i) (address i) role.

Definition candidateKey (role : AddressType) (pubkey : N → string) (i : N)
    : StoredKey.t :=
  StoredKey.mk i role (blake160 (pubkey i)).

(** What a caller and the store's reader can observe of a run of
    discovery for [role]: the returned addresses and the role's persisted
    key records. *)
Definition observed (role : AddressType)
    (o : outcome (list WalletAddress.t * Storage))
    : outcome (list WalletAddress.t * option (list StoredKey.t)) :=
  outcome_map (λ r, (r.1, keysOf role r.2)) o.

(** The value of the source's [pathIndex] for the stored records [saved]:
    one more than the index of the last record, or 0 when there is none. *)
Definition issuanceBase (saved : option (list StoredKey.t)) : N :=
  match saved with
  | Some (k :: ks) =>
    match lodash_last (k :: ks) with
    | Some lastKey => StoredKey.pathIndex lastKey + 1
    | None => 0
    end
  | _ => 0
  end.

(** A library call that succeeds. *)
Definition resolves {A} (r : result A) : Prop := ∃ a, r = Resolves a.

End Keystore.

(** ** [src/redux/chain/chainReducer.ts] *)

(** An optional, nullable field [f?: A | null]. *)
Inductive optional (A : Type) : Type :=
| absent
| null
| present (a : A).
Arguments absent {A}.
Arguments null {A}.
Arguments present {A} a.

(** [{ data?: T | null; isFetching: boolean; updatedAt?: number | null }] *)
Record Cached (T : Type) := mkCached {
  data : optional T;
  isFetching : bool;
  updatedAt : optional N
}.
Arguments mkCached {T} data isFetching updatedAt.
Arguments data {T} c.
Arguments isFetching {T} c.
Arguments updatedAt {T} c.

(** [{ ...entry, isFetching: true }] where [entry] is read from a map whose
    values are [Cached T | null]: spreading [undefined] or [null] copies
    nothing. *)
Definition spread_fetching {T} (entry : option (option (Cached T))) : Cached T :=
  match entry with
  | Some (Some c) => mkCached (data c) true (updatedAt c)
  | _ => mkCached absent true absent
  end.

Record H160 := mkH160 { value : string }.

Section Chain.

(** [TransactionDoc] of [codechain-indexer-types]. *)
Variable TransactionDoc : Type.

(** A map from address (or id) to [Cached T | null]; [None] as a value is
    [null]. *)
Local Abbreviation table T := (gmap string (option (Cached T))).

Record ChainState := mkChainState {
  pendingTxList : table (list TransactionDoc);
  txList : table (list TransactionDoc);
  countOfTxList : table N;
  pendingTxListById : table (list TransactionDoc);
  txListById : table (list TransactionDoc);
  countOfTxListById : table N;
  bestBlockNumber : optional (Cached N)
}.

Definition chainInitState : ChainState :=
  mkChainState ∅ ∅ ∅ ∅ ∅ ∅ absent.

Definition getIdByAddressAssetType (address : string) (assetType : H160) : string :=
  address +:+ "-" +:+ value assetType.

(** The actions of [./chainActions] the reducer handles, with the fields
    of [action.data] it reads; [OtherAction] is any other action. *)
Inductive Action :=
| CachePendingTxList (address : string) (pendingTxList : list TransactionDoc)
| SetFetchingPendingTxList (address : string)
| UpdateBestBlockNumber (bestBlockNumber : N)
| SetFetchingBestBlockNumber
| CacheTxList (address : string) (txList : list TransactionDoc)
| SetFetchingTxList (address : string)
| SetFetchingCountOfTxList (address : string)
| SetFetchingCountOfTxListById (address : string) (assetType : H160)
| CacheCountOfTxList (address : string) (count : N)
| CacheCountOfTxListById (address : string) (assetType : H160) (count : N)
| SetFetchingTxListById (address : string) (assetType : H160)
| CacheTxListById (address : string) (assetType : H160) (txList : list TransactionDoc)
| OtherAction.

(** [now] is the reading of the clock, [+new Date()]; [state] is [None]
    when the caller passes [undefined], and defaults to [chainInitState]. *)
Definition chainReducer (now : N) (state : option ChainState) (action : Action)
    : ChainState :=
  let state := default chainInitState state in
  match action with
  | CachePendingTxList address pendingTxList' =>
    let currentPendingTxList := mkCached (present pendingTxList') false (present now) in
    let pendingTxList := <[address := Some currentPendingTxList]> (pendingTxList state) in
    mkChainState pendingTxList (txList state) (countOfTxList state)
      (pendingTxListById state) (txListById state) (countOfTxListById state)
      (bestBlockNumber state)
  | SetFetchingPendingTxList address =>
    let currentPendingTxList := spread_fetching (pendingTxList state !! address) in
    let pendingTxList := <[address := Some currentPendingTxList]> (pendingTxList state) in
    mkChainState pendingTxList (txList state) (countOfTxList state)
      (pendingTxListById state) (txListById state) (countOfTxListById state)
      (bestBlockNumber state)
  | UpdateBestBlockNumber bestBlockNumber' =>
    mkChainState (pendingTxList state) (txList state) (countOfTxList state)
      (pendingTxListById state) (txListById state) (countOfTxListById state)
      (present (mkCached (present bestBlockNumber') false (present now)))
  | SetFetchingBestBlockNumber =>
    mkChainState (pendingTxList state) (txList state) (countOfTxList state)
      (pendingTxListById state) (txListById state) (countOfTxListById state)
      (present (match bestBlockNumber state with
                | present c => mkCached (data c) true (updatedAt c)
                | _ => mkCached absent true absent
                end))
  | CacheTxList address txList' =>
    let currentTxList := mkCached (present txList') false (present now) in
    let txList := <[address := Some currentTxList]> (txList state) in
    mkChainState (pendingTxList state) txList (countOfTxList state)
      (pendingTxListById state) (txListById state) (countOfTxListById state)
      (bestBlockNumber state)
  | SetFetchingTxList address =>
    let currentTxList := spread_fetching (txList state !! address) in
    let txList := <[address := Some currentTxList]> (txList state) in
    mkChainState (pendingTxList state) txList (countOfTxList state)
      (pendingTxListById state) (txListById state) (countOfTxListById state)
      (bestBlockNumber state)
  | SetFetchingCountOfTxList address =>
    mkChainState (pendingTxList state) (txList state)
      (<[address := Some (spread_fetching (countOfTxList state !! address))]>
         (countOfTxList state))
      (pendingTxListById state) (txListById state) (countOfTxListById state)
      (bestBlockNumber state)
  | SetFetchingCountOfTxListById address assetType =>
    let id := getIdByAddressAssetType address assetType in
    mkChainState (pendingTxList state) (txList state) (countOfTxList state)
      (pendingTxListById state) (txListById state)
      (<[id := Some (spread_fetching (countOfTxListById state !! id))]>
         (countOfTxListById state))
      (bestBlockNumber state)
  | CacheCountOfTxList address count =>
    mkChainState (pendingTxList state) (txList state)
      (<[address := Some (mkCached (present count) false (present now))]>
         (countOfTxList state))
      (pendingTxListById state) (txListById state) (countOfTxListById state)
      (bestBlockNumber state)
  | CacheCountOfTxListById address assetType count =>
    let id := getIdByAddressAssetType address assetType in
    mkChainState (pendingTxList state) (txList state) (countOfTxList state)
      (pendingTxListById state) (txListById state)
      (<[id := Some (mkCached (present count) false (present now))]>
         (countOfTxListById state))
      (bestBlockNumber state)
  | SetFetchingTxListById address assetType =>
    let id := getIdByAddressAssetType address assetType in
    let currentTxList := spread_fetching (txListById state !! id) in
    let txListById := <[id := Some currentTxList]> (txListById state) in
    mkChainState (pendingTxList state) (txList state) (countOfTxList state)
      (pendingTxListById state) txListById (countOfTxListById state)
      (bestBlockNumber state)
  | CacheTxListById address assetType txList' =>
    let id := getIdByAddressAssetType address assetType in
    let currentTxList := mkCached (present txList') false (present now) in
    let txListById := <[id := Some currentTxList]> (txListById state) in
    mkChainState (pendingTxList state) (txList state) (countOfTxList state)
      (pendingTxListById state) txListById (countOfTxListById state)
      (bestBlockNumber state)
  | OtherAction => state
  end.

End Chain.

Arguments pendingTxList {TransactionDoc} c.
Arguments txList {TransactionDoc} c.
Arguments countOfTxList {TransactionDoc} c.
Arguments pendingTxListById {TransactionDoc} c.
Arguments txListById {TransactionDoc} c.
Arguments countOfTxListById {TransactionDoc} c.
Arguments bestBlockNumber {TransactionDoc} c.
Arguments chainReducer {TransactionDoc} now state action.
Arguments CachePendingTxList {TransactionDoc} address pendingTxList.

Arguments SetFetchingPendingTxList {TransactionDoc} address.
Arguments UpdateBestBlockNumber {TransactionDoc} bestBlockNumber.
Arguments SetFetchingBestBlockNumber {TransactionDoc}.
Arguments CacheTxList {TransactionDoc} address txList.
Arguments SetFetchingTxList {TransactionDoc} address.
Arguments SetFetchingCountOfTxList {TransactionDoc} address.
Arguments SetFetchingCountOfTxListById {TransactionDoc} address assetType.
Arguments CacheCountOfTxList {TransactionDoc} address count.
Arguments CacheCountOfTxListById {TransactionDoc} address assetType count.
Arguments SetFetchingTxListById {TransactionDoc} address assetType.
Arguments CacheTxListById {TransactionDoc} address assetType txList.
Arguments OtherAction {TransactionDoc}.
Arguments chainInitState {TransactionDoc}.

(** *** Vocabulary for the reducer *)

(** The parts of the state an action can write. *)
Inductive Slot :=
| PendingTxListSlot
| TxListSlot
| CountOfTxListSlot
| TxListByIdSlot
| CountOfTxListByIdSlot
| BestBlockNumberSlot.

Global Instance Slot_eq_dec : EqDecision Slot.
Proof. solve_decision. Defined.

(** The slot and the key (address or id; none for the best block number)
    the case of an action assigns to; [None] for an action without a case. *)
Definition target {TransactionDoc} (action : Action TransactionDoc)
    : option (Slot * string) :=
  match action with
  | CachePendingTxList address _ => Some (PendingTxListSlot, address)
  | SetFetchingPendingTxList address => Some (PendingTxListSlot, address)
  | UpdateBestBlockNumber _ => Some (BestBlockNumberSlot, "")
  | SetFetchingBestBlockNumber => Some (BestBlockNumberSlot, "")
  | CacheTxList address _ => Some (TxListSlot, address)
  | SetFetchingTxList address => Some (TxListSlot, address)
  | SetFetchingCountOfTxList address => Some (CountOfTxListSlot, address)
  | SetFetchingCountOfTxListById address assetType =>
    Some (CountOfTxListByIdSlot, getIdByAddressAssetType address assetType)
  | CacheCountOfTxList address _ => Some (CountOfTxListSlot, address)
  | CacheCountOfTxListById address assetType _ =>
    Some (CountOfTxListByIdSlot, getIdByAddressAssetType address assetType)
  | SetFetchingTxListById address assetType =>
    Some (TxListByIdSlot, getIdByAddressAssetType address assetType)
  | CacheTxListById address assetType _ =>
    Some (TxListByIdSlot, getIdByAddressAssetType address assetType)
  | OtherAction => None
  end.

(** The actions that store a fetched value ([Cache...], [Update...]), as
    opposed to those that mark a fetch as started ([SetFetching...]). *)
Definition stores {TransactionDoc} (action : Action TransactionDoc) : bool :=
  match action with
  | CachePendingTxList _ _ | UpdateBestBlockNumber _ | CacheTxList _ _
  | CacheCountOfTxList _ _ | CacheCountOfTxListById _ _ _ | CacheTxListById _ _ _ => true
  | _ => false
  end.

(** [entry.data] and [entry.updatedAt] of what a lookup in a table gave,
    absent when there is no entry or the entry is [null]. *)
Definition entryData {T} (entry : option (option (Cached T))) : optional T :=
  match entry with
  | Some (Some c) => data c
  | _ => absent
  end.

Definition entryUpdatedAt {T} (entry : option (option (Cached T))) : optional N :=
  match entry with
  | Some (Some c) => updatedAt c
  | _ => absent
  end.

(** [after] is the entry a [SetFetching...] case writes over [before]: an
    object that is fetching, with the data and the time of [before]. *)
Definition fetchingOver {T} (before after : option (option (Cached T))) : Prop :=
  ∃ c, after = Some (Some c)
    ∧ isFetching c = true
    ∧ data c = entryData before
    ∧ updatedAt c = entryUpdatedAt before.

(** A string without the character [-] (code 45). *)
Fixpoint no_dash (s : string) : bool :=
  match s with
  | EmptyString => true
  | String c s' => negb (Ascii.eqb c (Ascii.ascii_of_nat 45)) && no_dash s'
  end.

(** ** [src/components/RestoreWallet/RestoreWallet.tsx]

    The state of the component and its event handlers.  The text of an
    input is the list of its UTF-16 code units, so that [length] is
    [String.prototype.length] and [=] is [===].  Inside a handler
    [this.state] does not change: [setState] queues a partial state, and the
    queue is merged into the state, in order, when the handler is done. *)

Module RestoreWallet.

Section Component.

Context {CodeUnit : Type} `{EqDecision CodeUnit}.

(** [text.match(/\S+/g)]: the maximal runs of non-space code units, or
    [null] ([None]) when there is none. *)
Variable matchNonSpace : list CodeUnit → option (list (list CodeUnit)).

Record State := mkState {
  secretPhrase : list CodeUnit;
  passphrase : list CodeUnit;
  passphraseConfirm : list CodeUnit;
  isPassphraseValid : option bool;
  passphraseError : option string;
  isPassphraseConfirmValid : option bool;
  passphraseConfirmError : option string
}.

(** The state the constructor sets. *)
Definition initialState : State := mkState [] [] [] None None None None.

(** The partial states the handlers pass to [setState]. *)
Inductive Update :=
| SecretPhraseUpdate (secretPhrase : list CodeUnit)
| PassphraseUpdate (passphrase : list CodeUnit)
| PassphraseConfirmUpdate (passphraseConfirm : list CodeUnit)
| PassphraseValidationUpdate (passphraseError : option string)
    (isPassphraseValid : option bool)
| PassphraseConfirmValidationUpdate (passphraseConfirmError : option string)
    (isPassphraseConfirmValid : option bool).

Definition merge (s : State) (u : Update) : State :=
  match u with
  | SecretPhraseUpdate v =>
    mkState v (passphrase s) (passphraseConfirm s) (isPassphraseValid s)
      (passphraseError s) (isPassphraseConfirmValid s) (passphraseConfirmError s)
  | PassphraseUpdate v =>
    mkState (secretPhrase s) v (passphraseConfirm s) (isPassphraseValid s)
      (passphraseError s) (isPassphraseConfirmValid s) (passphraseConfirmError s)
  | PassphraseConfirmUpdate v =>
    mkState (secretPhrase s) (passphrase s) v (isPassphraseValid s)
      (passphraseError s) (isPassphraseConfirmValid s) (passphraseConfirmError s)
  | PassphraseValidationUpdate error valid =>
    mkState (secretPhrase s) (passphrase s) (passphraseConfirm s) valid
      error (isPassphraseConfirmValid s) (passphraseConfirmError s)
  | PassphraseConfirmValidationUpdate error valid =>
    mkState (secretPhrase s) (passphrase s) (passphraseConfirm s)
      (isPassphraseValid s) (passphraseError s) valid error
  end.

(** The state once the updates a handler queued on [s] are merged. *)
Definition after (handler : State → list Update) (s : State) : State :=
  foldl merge s (handler s).

Definition handleChangeSecretPhraseInput (value : list CodeUnit) (s : State)
    : list Update :=
  [SecretPhraseUpdate value].

Definition checkPassphraseValid (s : State) : bool * list Update :=
  if (length (passphrase s) <? 8)%nat then
    (false,
     [PassphraseValidationUpdate (Some "Minimum length is 8 characters") (Some false)])
  else (true, [PassphraseValidationUpdate None (Some true)]).

Definition checkPassphraseConfirm (s : State) : bool * list Update :=
  if bool_decide (passphrase s ≠ passphraseConfirm s) then
    (false,
     [PassphraseConfirmValidationUpdate (Some "Password does not match!") (Some false)])
  else (true, [PassphraseConfirmValidationUpdate None (Some true)]).

Definition handleSubmit (s : State) : list Update :=
  let passphrase := passphrase s in
  let '(valid, updates1) := checkPassphraseValid s in
  if negb valid then updates1
  else
    let '(confirmed, updates2) := checkPassphraseConfirm s in
    if negb confirmed then updates1 ++ updates2
    else
      let splitPassphrases := matchNonSpace passphrase in
      if match splitPassphrases with
         | None => true
         | Some words => negb (length words =? 12)%nat
         end
      then updates1 ++ updates2
      else updates1 ++ updates2.

Definition handlePassphraseInput (value : list CodeUnit) (s : State) : list Update :=
  [PassphraseValidationUpdate None None; PassphraseUpdate value].

Definition handlePassphraseConfirmInput (value : list CodeUnit) (s : State)
    : list Update :=
  [PassphraseConfirmValidationUpdate None None; PassphraseConfirmUpdate value].

End Component.

End RestoreWallet.

(** ** The vault handle of [src/model/keystore.ts]

    [getCCKey] keeps the handle of the vault in the module variable
    [globalCCKey] and creates it when the variable is still [undefined].
    The model is of calls made one after the other; [created] counts the
    calls to [CCKey.create] made so far, and [CCKey_create n] is the result
    of the call made after [n] earlier ones. *)

Module Handle.

Section GetCCKey.

Variable CCKey : Type.
Variable CCKey_create : nat → result CCKey.

Record Process := mkProcess {
  globalCCKey : option CCKey;
  created : nat
}.

(** The state of a fresh process. *)
Definition start : Process := mkProcess None 0.

Definition getCCKey (p : Process) : outcome CCKey * Process :=
  match globalCCKey p with
  | None =>
    match CCKey_create (created p) with
    | Resolves ccKey => (Returns ccKey, mkProcess (Some ccKey) (S (created p)))
    | Rejects e => (Throws e, mkProcess None (S (created p)))
    end
  | Some ccKey => (Returns ccKey, p)
  end.

(** The process after [n] calls to [getCCKey]. *)
Definition calls (n : nat) (p : Process) : Process :=
  Nat.iter n (λ p, (getCCKey p).2) p.

(** What holds of every process reached from a fresh one: the handle it
    holds is what the last call to [CCKey.create] returned, and the earlier
    calls failed. *)
Definition handle_invariant (p : Process) : Prop :=
  match globalCCKey p with
  | Some ccKey =>
    ∃ m, created p = S m ∧ CCKey_create m = Resolves ccKey
      ∧ ∀ j, (j < m)%nat → ∃ e, CCKey_create j = Rejects e
  | None => ∀ j, (j < created p)%nat → ∃ e, CCKey_create j = Rejects e
  end.

End GetCCKey.

End Handle.

(** ** A concrete world

    A world in which every answer is legible: the vault's public key spells
    out the seed and the passphrase it was derived from and ends with the
    path, the hash and the encoders prefix their argument, and the ledger
    reports usage for the addresses that [active] selects. *)

Definition demoExternals (active : string → bool) : Externals := {|
  getSeedHashes := Resolves ["seed"];
  getPublicKeyFromSeed := λ seedHash path passphrase,
    match seedHash with
    | Some h => Resolves ("pub[" +:+ h +:+ "," +:+ default "" passphrase +:+ "]" +:+ path)
    | None => Rejects "no seed"
    end;
  blake160 := λ pubkey, "h:" +:+ pubkey;
  PlatformAddress_fromAccountId := λ key networkId, Resolves (networkId +:+ "c:" +:+ key);
  AssetTransferAddress_fromTypeAndPayload := λ _ key networkId,
    Resolves (networkId +:+ "a:" +:+ key);
  AggsUTXO := unit;
  getPlatformAccount := λ address _, Resolves (mkAccount (if active address then 1 else 0));
  getAggsUTXOList := λ address _, Resolves (if active address then [()] else [])
|}.

(** The public key, the key fingerprint and the address of [role] at index
    [i] in that world. *)
Definition demoPubkey (role : AddressType) (passphrase : string) (i : N) : string :=
  "pub[seed," +:+ passphrase +:+ "]" +:+ pathFor role i.

Definition demoKey (role : AddressType) (passphrase : string) (i : N) : string :=
  "h:" +:+ demoPubkey role passphrase i.

Definition demoAddress (role : AddressType) (networkId : NetworkId)
    (passphrase : string) (i : N) : string :=
  match role with
  | Platform => networkId +:+ "c:" +:+ demoKey role passphrase i
  | Asset => networkId +:+ "a:" +:+ demoKey role passphrase i
  end.

(** A store with a passphrase and records left by an earlier session. *)
Definition demoStorage : Storage :=
  mkStorage (Some "pw")
    (Some [StoredKey.mk 0 Platform "old0"; StoredKey.mk 1 Platform "old1"])
    (Some [StoredKey.mk 4 Asset "old4"]).

(** A fresh store: a passphrase, nothing saved. *)
Definition freshStorage : Storage := mkStorage (Some "pw") None None.

(** The ledger has seen the addresses of the listed Platform indices. *)
Definition activeAt (used : list N) (address : string) : bool :=
  existsb (λ i, String.eqb address (demoAddress Platform "tc" "pw" i)) used.

(** The world [demoExternals active], except that the ledger does not
    answer for the accounts that [down] selects. *)
Definition downExternals (active down : string → bool) : Externals := {|
  getSeedHashes := @getSeedHashes (demoExternals active);
  getPublicKeyFromSeed := @getPublicKeyFromSeed (demoExternals active);
  blake160 := @blake160 (demoExternals active);
  PlatformAddress_fromAccountId := @PlatformAddress_fromAccountId (demoExternals active);
  AssetTransferAddress_fromTypeAndPayload :=
    @AssetTransferAddress_fromTypeAndPayload (demoExternals active);
  AggsUTXO := unit;
  getPlatformAccount := λ address networkId,
    if down address then Rejects "timeout"
    else @getPlatformAccount (demoExternals active) address networkId;
  getAggsUTXOList := λ address networkId,
    if down address then Rejects "timeout"
    else Resolves (if active address then [()] else [])
|}.

(** ** Further vocabulary for the keystore *)

Definition otherRole (role : AddressType) : AddressType :=
  match role with
  | Platform => Asset
  | Asset => Platform
  end.

Section Probing.

Context `{ext : Externals}.

(** What one iteration of the loop of [role] asks of the libraries at index
    [i]: the public key, its address and the usage evidence, or the first
    exception among the three calls. *)
Definition probeAt (role : AddressType) (networkId : NetworkId)
    (seedHash passphrase : option string) (i : N) : result (string * string * bool) :=
  match getPublicKeyFromSeed seedHash (pathFor role i) passphrase with
  | Resolves pubkey =>
    match encode role (blake160 pubkey) networkId with
    | Resolves address =>
      match usageEvidence role address networkId with
      | Resolves used => Resolves (pubkey, address, used)
      | Rejects e => Rejects e
      end
    | Rejects e => Rejects e
    end
  | Rejects e => Rejects e
  end.

(** What a caller and the store's reader can observe of an issuance for
    [role]: the returned address and the role's persisted key records. *)
Definition issued (role : AddressType) (o : outcome (WalletAddress.t * Storage))
    : outcome (WalletAddress.t * option (list StoredKey.t)) :=
  outcome_map (λ r, (r.1, keysOf role r.2)) o.

End Probing.

(** A state with one cached list and one running fetch. *)
Definition demoChainState : ChainState unit :=
  mkChainState unit
    {["a" := Some (mkCached (present [()]) false (present 5))]}
    {["a" := Some (mkCached absent true absent); "b" := None]}
    ∅ ∅ ∅ ∅ null.

(** A vault whose first creation fails and whose later ones succeed. *)
Definition demoCreate (n : nat) : result string :=
  match n with
  | O => Rejects "locked"
  | _ => Resolves "vault"
  end.

(** * Reasoning about runs *)

(** ** Decimal rendering *)

Lemma number_to_string_inj i j : number_to_string i = number_to_string j → i = j.
Proof. unfold number_to_string. apply (inj pretty). Qed.

(** [nonce.value.toString(10) !== "0"] tests that the nonce is not zero. *)
Lemma nonce_test (n : N) :
  negb (String.eqb (number_to_string n) "0") = negb (n =? 0).
Proof.
  f_equal. destruct (N.eqb_spec n 0) as [->|Hn].
  - reflexivity.
  - apply String.eqb_neq. intros H. apply Hn.
    apply number_to_string_inj. exact H.
Qed.

(** ** Monad steps *)

Lemma bind_returns {A B} (m : M A) (k : A → M B) st a st' :
  m st = Returns (a, st') → (m ≫= k) st = k a st'.
Proof. intros H. unfold mbind, M_bind. rewrite H. reflexivity. Qed.

Lemma bind_await {A B} (p : result A) (k : A → M B) st a :
  p = Resolves a → (await p ≫= k) st = k a st.
Proof. intros ->. reflexivity. Qed.

Lemma bind_eq {A B} (m : M A) (k : A → M B) st :
  (m ≫= k) st
  = match m st with
    | Returns (a, st') => k a st'
    | Throws e => Throws e
    | OutOfFuel => OutOfFuel
    end.
Proof. reflexivity. Qed.

Lemma bind_await_Resolves {A B} (a : A) (k : A → M B) st :
  (await (Resolves a) ≫= k) st = k a st.
Proof. reflexivity. Qed.

Lemma bind_await_Rejects {A B} (e : string) (k : A → M B) st :
  (await (Rejects e) ≫= k) st = Throws e.
Proof. reflexivity. Qed.

Lemma bind_getPassphrase {B} (k : option string → M B) st :
  (getPassphrase ≫= k) st = k (passphrase st) st.
Proof. reflexivity. Qed.

Lemma elem_of_indices i n : ∀ c, i ∈ indices c n → c ≤ i < c + N.of_nat n.
Proof.
  induction n as [|n IH]; intros c Hi; simpl in Hi.
  - inversion Hi.
  - apply elem_of_cons in Hi as [->|Hi]; [lia|]. apply IH in Hi. lia.
Qed.

Lemma lastUsedFrom_ext (used used' : N → bool) l : ∀ acc,
  (∀ i, i ∈ l → used i = used' i) →
  lastUsedFrom used acc l = lastUsedFrom used' acc l.
Proof.
  unfold lastUsedFrom. induction l as [|i l IH]; intros acc H; simpl; [reflexivity|].
  rewrite (H i) by apply list_elem_of_here.
  apply IH. intros j Hj. apply H. by apply list_elem_of_further.
Qed.

Lemma lastUsedFrom_unused (used : N → bool) l : ∀ acc,
  (∀ i, i ∈ l → used i = false) → lastUsedFrom used acc l = acc.
Proof.
  unfold lastUsedFrom. induction l as [|i l IH]; intros acc H; simpl; [reflexivity|].
  rewrite (H i) by apply list_elem_of_here.
  apply IH. intros j Hj. apply H. by apply list_elem_of_further.
Qed.

(** After a scan of [c, ..., c+n-1] the variable holds the greatest index
    with usage evidence. *)
Lemma lastUsedFrom_last (used : N → bool) (lastUsed : N) (n : nat) : ∀ c acc,
  c ≤ lastUsed < c + N.of_nat n →
  used lastUsed = true →
  (∀ j, lastUsed < j < c + N.of_nat n → used j = false) →
  lastUsedFrom used acc (indices c n) = Some lastUsed.
Proof.
  induction n as [|n IH]; intros c acc Hrange Hused Hlater; [lia|].
  simpl. change (foldl _ ?a ?l) with (lastUsedFrom used a l).
  destruct (N.eq_dec c lastUsed) as [->|Hne].
  - rewrite Hused. apply lastUsedFrom_unused.
    intros j Hj. apply elem_of_indices in Hj. apply Hlater. lia.
  - apply IH; [lia|exact Hused|]. intros j Hj. apply Hlater. lia.
Qed.

Lemma restored_subseteq {A} (used : N → bool) (candidates : list A) :
  restored used candidates ⊆ candidates.
Proof.
  unfold restored, slice0.
  destruct (lastUsedFrom _ _ _) as [lastValid|]; [destruct (js_not lastValid)|];
    auto using subseteq_take, list_subseteq_nil.
Qed.

Lemma restored_ext {A} (used used' : N → bool) (candidates : list A) :
  (∀ i, i < restoringCheckingRange → used i = used' i) →
  restored used candidates = restored used' candidates.
Proof.
  intros H. unfold restored. rewrite (lastUsedFrom_ext used used'); [reflexivity|].
  intros i Hi. apply H. apply elem_of_indices in Hi. unfold restoringCheckingRange in *. lia.
Qed.

Section KeystoreFacts.

Context `{ext : Externals}.

Lemma getFirstSeedHash_run seedHashes st :
  getSeedHashes = Resolves seedHashes →
  getFirstSeedHash st = Returns (head seedHashes, st).
Proof. intros H. unfold getFirstSeedHash. rewrite (bind_await _ _ _ _ H). reflexivity. Qed.

Lemma getFirstSeedHash_eq st :
  getFirstSeedHash st
  = match getSeedHashes with
    | Resolves seedHashes => Returns (head seedHashes, st)
    | Rejects e => Throws e
    end.
Proof.
  unfold getFirstSeedHash. rewrite bind_eq. unfold await.
  by destruct getSeedHashes.
Qed.

(** The ledger probe of the Platform role asks for a non-zero nonce, that
    of the Asset role for a non-empty list of unspent outputs. *)
Lemma usageEvidence_Platform address networkId :
  usageEvidence Platform address networkId
  = result_map (λ account, negb (nonce account =? 0))
      (getPlatformAccount address networkId).
Proof.
  unfold usageEvidence. destruct (getPlatformAccount address networkId);
    [|reflexivity]. cbn [result_map]. by rewrite nonce_test.
Qed.

Lemma usageEvidence_Asset address networkId :
  usageEvidence Asset address networkId
  = result_map (λ aggsUTXO : list AggsUTXO, bool_decide (aggsUTXO ≠ []))
      (getAggsUTXOList address networkId).
Proof.
  unfold usageEvidence. destruct (getAggsUTXOList address networkId) as [[|u l]|];
    reflexivity.
Qed.

Lemma savePlatformKeys_withKeys keys st :
  savePlatformKeys keys st = Returns (tt, withKeys Platform keys st).
Proof. reflexivity. Qed.

Lemma saveAssetKeys_withKeys keys st :
  saveAssetKeys keys st = Returns (tt, withKeys Asset keys st).
Proof. reflexivity. Qed.

(** *** A run of discovery in which every call succeeds

    [pubkey i], [address i] and [used i] are what the vault, the encoder
    and the ledger probe answer at index [i]. *)
Section Run.

Variables (role : AddressType) (networkId : NetworkId) (st : Storage).
Variables (seedHashes : list string) (pubkey address : N → string) (used : N → bool).

Hypothesis seeds_ok : getSeedHashes = Resolves seedHashes.
Hypothesis derive_ok : ∀ i, i < restoringCheckingRange →
  getPublicKeyFromSeed (head seedHashes) (pathFor role i) (passphrase st)
  = Resolves (pubkey i).
Hypothesis encode_ok : ∀ i, i < restoringCheckingRange →
  encode role (blake160 (pubkey i)) networkId = Resolves (address i).
Hypothesis probe_ok : ∀ i, i < restoringCheckingRange →
  usageEvidence role (address i) networkId = Resolves (used i).

Lemma restoreLoop_run (n : nat) : ∀ (fuel : nat) (s : Scan),
  currentPath s + N.of_nat n = restoringCheckingRange →
  (n < fuel)%nat →
  restoreLoop role fuel (head seedHashes) networkId s st
  = Returns (mkScan restoringCheckingRange
               (addresses s ++ (candidateAddress role address <$> indices (currentPath s) n))
               (keys s ++ (candidateKey role pubkey <$> indices (currentPath s) n))
               (lastUsedFrom used (lastValidPathIndex s) (indices (currentPath s) n)),
             st).
Proof.
  induction n as [|n IH]; intros fuel s Hc Hfuel;
    (destruct fuel as [|fuel]; [lia|]).
  - assert (currentPath s = restoringCheckingRange) as Hs by lia.
    assert ((currentPath s <? restoringCheckingRange) = false) as Hlt
      by (apply N.ltb_ge; lia).
    destruct role; simpl; rewrite Hlt, !app_nil_r; unfold lastUsedFrom; simpl;
      rewrite <- Hs; destruct s; reflexivity.
  - assert (currentPath s < restoringCheckingRange) as Hi by lia.
    assert ((currentPath s <? restoringCheckingRange) = true) as Hlt
      by (apply N.ltb_lt; lia).
    pose proof (derive_ok _ Hi) as Hd.
    pose proof (encode_ok _ Hi) as He.
    pose proof (probe_ok _ Hi) as Hp.
    destruct role; cbn [restoreLoop] in IH |- *;
      cbn [restorePlatformLoop restoreAssetLoop pathFor encode usageEvidence]
        in Hd, He, Hp |- *;
      rewrite Hlt, bind_getPassphrase,
        (bind_await _ _ _ _ Hd), (bind_await _ _ _ _ He).
    + destruct (getPlatformAccount (address (currentPath s)) networkId)
        as [account|] eqn:Hacc; simpl in Hp; try discriminate.
      injection Hp as Hp.
      rewrite bind_await_Resolves.
      rewrite IH by (simpl; lia). simpl.
      rewrite Hp, <- !app_assoc. reflexivity.
    + destruct (getAggsUTXOList (address (currentPath s)) networkId)
        as [aggsUTXO|] eqn:Hutxo; simpl in Hp; try discriminate.
      injection Hp as Hp.
      rewrite bind_await_Resolves.
      rewrite IH by (simpl; lia). simpl.
      rewrite Hp, <- !app_assoc. reflexivity.
Qed.

(** The whole of discovery on such a run. *)
Lemma discover_run :
  discover role networkId st
  = Returns
      (restored used (candidateAddress role address <$>
                        indices 0 (N.to_nat restoringCheckingRange)),
       withKeys role
         (restored used (candidateKey role pubkey <$>
                           indices 0 (N.to_nat restoringCheckingRange))) st).
Proof.
  pose proof (restoreLoop_run (N.to_nat restoringCheckingRange)
                (S (N.to_nat restoringCheckingRange)) (mkScan 0 [] [] None)
                eq_refl ltac:(lia)) as Hloop.
  cbn [currentPath addresses keys lastValidPathIndex app] in Hloop.
  unfold restored.
  destruct role; cbn [discover restoreLoop] in Hloop |- *;
    unfold restorePlatformAddresses, restoreAssetAddresses;
    rewrite (bind_returns _ _ _ _ _ (getFirstSeedHash_run _ _ seeds_ok));
    rewrite (bind_returns _ _ _ _ _ Hloop);
    cbn [lastValidPathIndex addresses keys];
    (destruct (lastUsedFrom used None _) as [lastValid|];
       [destruct (js_not lastValid)|]);
    reflexivity.
Qed.

(** Truncation at the last used index, when that index is not 0: the
    candidates of the indices up to and including it are kept, used or
    not, and the later ones are dropped. *)
Lemma discover_truncates (lastUsed : N) :
  0 < lastUsed < restoringCheckingRange →
  used lastUsed = true →
  (∀ j, lastUsed < j < restoringCheckingRange → used j = false) →
  discover role networkId st
  = Returns
      (candidateAddress role address <$> indices 0 (N.to_nat (lastUsed + 1)),
       withKeys role
         (candidateKey role pubkey <$> indices 0 (N.to_nat (lastUsed + 1))) st).
Proof.
  intros Hrange Hused Hlater. rewrite discover_run. unfold restored.
  rewrite (lastUsedFrom_last used lastUsed)
    by (try assumption; unfold restoringCheckingRange in *; simpl; lia).
  assert (js_not lastUsed = false) as -> by (apply N.eqb_neq; lia).
  unfold slice0. rewrite <- !fmap_take.
  assert (take (N.to_nat (lastUsed + 1)) (indices 0 (N.to_nat restoringCheckingRange))
          = indices 0 (N.to_nat (lastUsed + 1))) as ->; [|reflexivity].
  unfold restoringCheckingRange in *.
  assert (lastUsed ∈ [1; 2; 3; 4; 5; 6; 7; 8; 9]) as Hcases.
  { apply list_elem_of_In. simpl. lia. }
  repeat (apply elem_of_cons in Hcases as [->|Hcases]; [reflexivity|]).
  inversion Hcases.
Qed.

(** Every record discovery persists carries the tag of its role, and so
    does every address it returns. *)
Lemma discover_types :
  ∃ walletAddresses st',
    discover role networkId st = Returns (walletAddresses, st')
    ∧ (∀ walletAddress, walletAddress ∈ walletAddresses →
         WalletAddress.type walletAddress = role)
    ∧ ∃ records, keysOf role st' = Some records
        ∧ ∀ record, record ∈ records → StoredKey.type record = role.
Proof.
  eexists _, _. split; [exact discover_run|]. split.
  - intros walletAddress Hin. apply restored_subseteq in Hin.
    apply list_elem_of_fmap in Hin as (i & -> & _). reflexivity.
  - eexists. split; [destruct role; reflexivity|].
    intros record Hin. apply restored_subseteq in Hin.
    apply list_elem_of_fmap in Hin as (i & -> & _). reflexivity.
Qed.

(** C6: when the ledger probe reports no usage evidence at any index of
    the scan range, discovery returns the empty address sequence and
    overwrites the role's key records with the empty list. *)
Theorem discover_no_usage :
  (∀ i, i < restoringCheckingRange → used i = false) →
  discover role networkId st = Returns ([], withKeys role [] st)
  ∧ keysOf role (withKeys role [] st) = Some [].
Proof.
  intros Hnone. split; [|destruct role; reflexivity].
  rewrite discover_run.
  rewrite !(restored_ext used (λ _, false)) by exact Hnone.
  reflexivity.
Qed.

(** C1, as the code behaves: when usage evidence is reported at index 0
    only, [lastValid...PathIndex] is 0, which [!] takes for "no usage":
    discovery returns no address and persists no key record, where the
    claim expects the one address of index 0. *)
Theorem discover_usage_only_at_0 :
  used 0 = true →
  (∀ i, 0 < i < restoringCheckingRange → used i = false) →
  discover role networkId st = Returns ([], withKeys role [] st)
  ∧ keysOf role (withKeys role [] st) = Some [].
Proof.
  intros H0 Hrest. split; [|destruct role; reflexivity].
  rewrite discover_run.
  rewrite !(restored_ext used (λ i, i =? 0)); [reflexivity| |].
  all: intros i Hi; destruct (N.eqb_spec i 0) as [->|Hne];
    [exact H0 | apply Hrest; lia].
Qed.

(** C7: when usage evidence is reported exactly at indices 2 and 7,
    discovery returns the eight addresses of indices 0 to 7 in increasing
    order, the unused ones included, and persists the eight matching key
    records. *)
Theorem discover_usage_at_2_and_7 :
  (∀ i, i < restoringCheckingRange → used i = true ↔ i = 2 ∨ i = 7) →
  discover role networkId st
  = Returns (candidateAddress role address <$> [0; 1; 2; 3; 4; 5; 6; 7],
             withKeys role (candidateKey role pubkey <$> [0; 1; 2; 3; 4; 5; 6; 7]) st)
  ∧ keysOf role
      (withKeys role (candidateKey role pubkey <$> [0; 1; 2; 3; 4; 5; 6; 7]) st)
    = Some (candidateKey role pubkey <$> [0; 1; 2; 3; 4; 5; 6; 7]).
Proof.
  intros Hused. split; [|destruct role; reflexivity].
  apply (discover_truncates 7).
  - unfold restoringCheckingRange. lia.
  - apply Hused; [reflexivity | by right].
  - intros j Hj. destruct (used j) eqn:Hj7; [|reflexivity].
    apply Hused in Hj7; lia.
Qed.

End Run.

(** *** Discovery does not depend on what was stored before *)

Lemma restoreLoop_frame role seedHash networkId (fuel : nat) :
  ∀ (s : Scan) (st1 st2 : Storage),
  passphrase st1 = passphrase st2 →
  restoreLoop role fuel seedHash networkId s st2
  = outcome_map (λ r, (r.1, st2)) (restoreLoop role fuel seedHash networkId s st1).
Proof.
  induction fuel as [|fuel IH]; intros s st1 st2 Hpass.
  - destruct role; reflexivity.
  - destruct role; cbn [restoreLoop] in IH |- *;
      cbn [restorePlatformLoop restoreAssetLoop];
      (destruct (currentPath s <? restoringCheckingRange); [|reflexivity]);
      rewrite !bind_getPassphrase, Hpass;
      (destruct (getPublicKeyFromSeed _ _ _) as [pk|]; try reflexivity);
      rewrite !bind_await_Resolves.
    + destruct (PlatformAddress_fromAccountId _ _) as [a|]; try reflexivity.
      rewrite !bind_await_Resolves.
      destruct (getPlatformAccount _ _) as [acc|]; try reflexivity.
      rewrite !bind_await_Resolves. apply IH, Hpass.
    + destruct (AssetTransferAddress_fromTypeAndPayload _ _ _) as [a|];
        try reflexivity.
      rewrite !bind_await_Resolves.
      destruct (getAggsUTXOList _ _) as [utxo|]; try reflexivity.
      rewrite !bind_await_Resolves. apply IH, Hpass.
Qed.

(** *** Discovery terminates

    The loop makes at most [restoringCheckingRange] iterations, so the
    bound the restore functions pass to it is never reached: they return
    or propagate an exception. *)

Lemma restoreLoop_fuel role seedHash networkId (fuel : nat) :
  ∀ (s : Scan) (st : Storage),
  (N.to_nat (restoringCheckingRange - currentPath s) < fuel)%nat →
  restoreLoop role fuel seedHash networkId s st ≠ OutOfFuel.
Proof.
  induction fuel as [|fuel IH]; intros s st Hfuel; [lia|].
  destruct role; cbn [restoreLoop] in IH |- *;
    cbn [restorePlatformLoop restoreAssetLoop];
    (destruct (currentPath s <? restoringCheckingRange) eqn:Hlt; [|discriminate]);
    apply N.ltb_lt in Hlt;
    rewrite bind_getPassphrase;
    (destruct (getPublicKeyFromSeed _ _ _) as [pk|];
       [rewrite bind_await_Resolves | rewrite bind_await_Rejects; discriminate]).
  - destruct (PlatformAddress_fromAccountId _ _) as [a|];
      [rewrite bind_await_Resolves | rewrite bind_await_Rejects; discriminate].
    destruct (getPlatformAccount _ _) as [acc|];
      [rewrite bind_await_Resolves | rewrite bind_await_Rejects; discriminate].
    apply IH. cbn [currentPath]. lia.
  - destruct (AssetTransferAddress_fromTypeAndPayload _ _ _) as [a|];
      [rewrite bind_await_Resolves | rewrite bind_await_Rejects; discriminate].
    destruct (getAggsUTXOList _ _) as [utxo|];
      [rewrite bind_await_Resolves | rewrite bind_await_Rejects; discriminate].
    apply IH. cbn [currentPath]. lia.
Qed.

Lemma discover_terminates role networkId st :
  discover role networkId st ≠ OutOfFuel.
Proof.
  pose proof (λ seedHash, restoreLoop_fuel role seedHash networkId
                (S (N.to_nat restoringCheckingRange)) (mkScan 0 [] [] None) st
                ltac:(cbn; lia)) as Hfuel.
  destruct role; cbn [discover restoreLoop] in Hfuel |- *;
    unfold restorePlatformAddresses, restoreAssetAddresses;
    rewrite bind_eq, getFirstSeedHash_eq;
    (destruct getSeedHashes as [seedHashes|]; [|discriminate]);
    cbn beta iota; rewrite bind_eq; specialize (Hfuel (head seedHashes));
    lazymatch goal with
    | |- context [?loop ?fuel ?h ?n ?s0 st] =>
      destruct (loop fuel h n s0 st) as [[s st']| |]; [|discriminate|congruence]
    end;
    (destruct (lastValidPathIndex s) as [lastValid|];
       [destruct (js_not lastValid)|]);
    discriminate.
Qed.

(** C9: discovery is deterministic.  Under the same vault, encoders and
    ledger answers, two runs for the same role and network that start with
    the same passphrase return the same address sequence (or fail alike) and
    persist the same key records, whatever was stored before each run. *)
Theorem discover_deterministic role networkId (st1 st2 : Storage) :
  passphrase st1 = passphrase st2 →
  observed role (discover role networkId st1)
  = observed role (discover role networkId st2).
Proof.
  intros Hpass.
  pose proof (λ seedHash, restoreLoop_frame role seedHash networkId
                (S (N.to_nat restoringCheckingRange)) (mkScan 0 [] [] None)
                st1 st2 Hpass) as Hframe.
  unfold observed.
  destruct role; cbn [discover restoreLoop] in Hframe |- *;
    unfold restorePlatformAddresses, restoreAssetAddresses;
    rewrite !bind_eq, !getFirstSeedHash_eq;
    (destruct getSeedHashes as [seedHashes|]; [|reflexivity]);
    cbn beta iota; rewrite !bind_eq, (Hframe (head seedHashes));
    lazymatch goal with
    | |- context [outcome_map _ (?loop ?fuel ?h ?n ?s0 st1)] =>
      destruct (loop fuel h n s0 st1) as [[s st']| |]; [|reflexivity..]
    end;
    cbn [outcome_map fst snd];
    (destruct (lastValidPathIndex s) as [lastValid|];
       [destruct (js_not lastValid)|]);
    reflexivity.
Qed.

(** *** Issuance *)

Lemma issuanceBase_last keys lastKey :
  last keys = Some lastKey →
  issuanceBase (Some keys) = StoredKey.pathIndex lastKey + 1.
Proof.
  intros Hlast. destruct keys as [|k ks]; [discriminate|].
  unfold issuanceBase, lodash_last. rewrite Hlast. reflexivity.
Qed.

(** The first step of issuance computes [issuanceBase]; [_.last] of a
    non-empty array is defined, so the property access does not throw. *)
Lemma pathIndex_run (saved : option (list StoredKey.t)) st :
  match saved with
  | Some (k :: ks) =>
    lastKey ← defined (lodash_last (k :: ks));
    mret (StoredKey.pathIndex lastKey + 1)
  | _ => mret 0
  end st
  = Returns (issuanceBase saved, st).
Proof.
  unfold issuanceBase. destruct saved as [[|k ks]|]; try reflexivity.
  destruct (lodash_last (k :: ks)) as [lastKey|] eqn:Hlast; [reflexivity|].
  apply last_None in Hlast. discriminate.
Qed.

Lemma createPlatformAddress_run networkId st seedHashes pubkey address :
  getSeedHashes = Resolves seedHashes →
  getPublicKeyFromSeed (head seedHashes)
    (platformAddressPath +:+ number_to_string (issuanceBase (platformKeys st) + 1))
    None = Resolves pubkey →
  PlatformAddress_fromAccountId (blake160 pubkey) networkId = Resolves address →
  createPlatformAddress networkId st
  = Returns
      (WalletAddress.mk
         ("P-address " +:+ number_to_string (issuanceBase (platformKeys st) + 1))
         address Platform,
       withKeys Platform
         (default [] (platformKeys st) ++
          [StoredKey.mk (issuanceBase (platformKeys st) + 1) Platform (blake160 pubkey)])
         st).
Proof.
  intros Hseeds Hderive Hencode. unfold createPlatformAddress.
  rewrite (bind_returns _ _ _ _ _ (getFirstSeedHash_run _ _ Hseeds)).
  rewrite bind_eq. cbn [getPlatformKeys].
  rewrite (bind_returns _ _ _ _ _ (pathIndex_run _ _)).
  rewrite (bind_await _ _ _ _ Hderive), bind_eq.
  destruct (platformKeys st) as [[|k ks]|];
    cbn [savePlatformKeys default app];
    rewrite (bind_await _ _ _ _ Hencode); reflexivity.
Qed.

Lemma createAssetAddress_run networkId st seedHashes pubkey address :
  getSeedHashes = Resolves seedHashes →
  getPublicKeyFromSeed (head seedHashes)
    (assetAddressPath +:+ number_to_string (issuanceBase (assetKeys st)))
    None = Resolves pubkey →
  AssetTransferAddress_fromTypeAndPayload 1 (blake160 pubkey) networkId
  = Resolves address →
  createAssetAddress networkId st
  = Returns
      (WalletAddress.mk
         ("A-address " +:+ number_to_string (issuanceBase (assetKeys st) + 1))
         address Asset,
       withKeys Asset
         (default [] (assetKeys st) ++
          [StoredKey.mk (issuanceBase (assetKeys st) + 1) Platform (blake160 pubkey)])
         st).
Proof.
  intros Hseeds Hderive Hencode. unfold createAssetAddress.
  rewrite (bind_returns _ _ _ _ _ (getFirstSeedHash_run _ _ Hseeds)).
  rewrite bind_eq. cbn [getAssetKeys].
  rewrite (bind_returns _ _ _ _ _ (pathIndex_run _ _)).
  rewrite (bind_await _ _ _ _ Hderive), bind_eq.
  destruct (assetKeys st) as [[|k ks]|];
    cbn [saveAssetKeys default app];
    rewrite (bind_await _ _ _ _ Hencode); reflexivity.
Qed.

Lemma keysOf_withKeys role keys st : keysOf role (withKeys role keys st) = Some keys.
Proof. destruct role; reflexivity. Qed.

(** Issuance for either role, when the vault holds a seed and derives at
    every path, and the encoder accepts the network. *)
Lemma issueNext_run role networkId st seedHashes :
  getSeedHashes = Resolves seedHashes →
  (∀ path, resolves (getPublicKeyFromSeed (head seedHashes) path None)) →
  (∀ key, resolves (encode role key networkId)) →
  ∃ key address,
    issueNext role networkId st
    = Returns
        (WalletAddress.mk (displayName role (issuanceBase (keysOf role st) + 1))
           address role,
         withKeys role
           (default [] (keysOf role st) ++
            [StoredKey.mk (issuanceBase (keysOf role st) + 1) Platform key])
           st).
Proof.
  intros Hseeds Hvault Hencode. destruct role; cbn [issueNext keysOf displayName].
  - destruct (Hvault (platformAddressPath +:+
                      number_to_string (issuanceBase (platformKeys st) + 1)))
      as [pubkey Hpk].
    destruct (Hencode (blake160 pubkey)) as [address Haddr].
    exists (blake160 pubkey), address.
    exact (createPlatformAddress_run _ _ _ _ _ Hseeds Hpk Haddr).
  - destruct (Hvault (assetAddressPath +:+
                      number_to_string (issuanceBase (assetKeys st))))
      as [pubkey Hpk].
    destruct (Hencode (blake160 pubkey)) as [address Haddr].
    exists (blake160 pubkey), address.
    exact (createAssetAddress_run _ _ _ _ _ Hseeds Hpk Haddr).
Qed.

(** C5: issuance on an empty key index (nothing stored for the role, or an
    empty list) persists exactly one record, with [pathIndex = 1], and
    names the address after index 1. *)
Theorem issueNext_empty_index role networkId st seedHashes :
  getSeedHashes = Resolves seedHashes →
  (∀ path, resolves (getPublicKeyFromSeed (head seedHashes) path None)) →
  (∀ key, resolves (encode role key networkId)) →
  keysOf role st = None ∨ keysOf role st = Some [] →
  ∃ walletAddress st' record,
    issueNext role networkId st = Returns (walletAddress, st')
    ∧ keysOf role st' = Some [record]
    ∧ StoredKey.pathIndex record = 1
    ∧ WalletAddress.name walletAddress = displayName role 1.
Proof.
  intros Hseeds Hvault Hencode Hempty.
  destruct (issueNext_run role networkId st seedHashes Hseeds Hvault Hencode)
    as (key & address & Hrun).
  eexists _, _, _. split; [exact Hrun|].
  rewrite keysOf_withKeys.
  destruct Hempty as [-> | ->]; repeat split; reflexivity.
Qed.

(** C2, as the code behaves: on a non-empty key index whose last record
    has index [p], issuance appends a record with [pathIndex = p + 2]
    (the source adds 1 to [p] and then 1 again), where the claim expects
    [p + 1]. *)
Theorem issueNext_nonempty_index role networkId st seedHashes keys lastKey :
  getSeedHashes = Resolves seedHashes →
  (∀ path, resolves (getPublicKeyFromSeed (head seedHashes) path None)) →
  (∀ key, resolves (encode role key networkId)) →
  keysOf role st = Some keys →
  last keys = Some lastKey →
  ∃ walletAddress st' record,
    issueNext role networkId st = Returns (walletAddress, st')
    ∧ keysOf role st' = Some (keys ++ [record])%list
    ∧ StoredKey.pathIndex record = StoredKey.pathIndex lastKey + 2.
Proof.
  intros Hseeds Hvault Hencode Hkeys Hlast.
  destruct (issueNext_run role networkId st seedHashes Hseeds Hvault Hencode)
    as (key & address & Hrun).
  eexists _, _, _. split; [exact Hrun|].
  rewrite keysOf_withKeys, Hkeys, (issuanceBase_last _ _ Hlast).
  split; [reflexivity|]. cbn [StoredKey.pathIndex]. lia.
Qed.

(** C4, as the code behaves: the record [createAssetAddress] appends to
    the Asset key index is tagged [Platform], while the address it returns
    is tagged [Asset]. *)
Theorem createAssetAddress_record_type networkId st seedHashes :
  getSeedHashes = Resolves seedHashes →
  (∀ path, resolves (getPublicKeyFromSeed (head seedHashes) path None)) →
  (∀ key, resolves (AssetTransferAddress_fromTypeAndPayload 1 key networkId)) →
  ∃ walletAddress st' record,
    createAssetAddress networkId st = Returns (walletAddress, st')
    ∧ assetKeys st' = Some (default [] (assetKeys st) ++ [record])%list
    ∧ StoredKey.type record = Platform
    ∧ WalletAddress.type walletAddress = Asset.
Proof.
  intros Hseeds Hvault Hencode.
  destruct (issueNext_run Asset networkId st seedHashes Hseeds Hvault Hencode)
    as (key & address & Hrun).
  eexists _, _, _. split; [exact Hrun|]. repeat split.
Qed.

End KeystoreFacts.

(** * The derivation path policy *)

Lemma pathFor_inj role i j : pathFor role i = pathFor role j → i = j.
Proof.
  intros Hpath. destruct role; unfold pathFor in Hpath;
    apply (inj (String.append _)) in Hpath;
    exact (number_to_string_inj _ _ Hpath).
Qed.

(** C8: the derivation path is injective in the index for either role, and
    the two roles never share a path at the same index. *)
Theorem pathFor_injective (role : AddressType) (i j : N) :
  (i ≠ j → pathFor role i ≠ pathFor role j)
  ∧ pathFor Platform i ≠ pathFor Asset i.
Proof.
  split.
  - intros Hne Hpath. apply Hne. exact (pathFor_inj _ _ _ Hpath).
  - unfold pathFor, platformAddressPath, assetAddressPath. simpl.
    intros Hpath. discriminate Hpath.
Qed.

(** * The chain reducer *)

(** The entry a [CachePendingTxList] action writes. *)
Lemma chainReducer_CachePendingTxList_entry {TransactionDoc : Type}
    (now : N) (state : option (ChainState TransactionDoc))
    (address : string) (txs : list TransactionDoc) :
  pendingTxList (chainReducer now state (CachePendingTxList address txs)) !! address
  = Some (Some (mkCached (present txs) false (present now))).
Proof. cbn. apply lookup_insert_eq. Qed.

(** C10: on a [CachePendingTxList] action the reducer changes nothing but
    the entry of [pendingTxList] at the action's address. *)
Theorem chainReducer_CachePendingTxList_frame {TransactionDoc : Type}
    (now : N) (state : ChainState TransactionDoc)
    (address : string) (txs : list TransactionDoc) :
  let state' := chainReducer now (Some state) (CachePendingTxList address txs) in
  txList state' = txList state
  ∧ countOfTxList state' = countOfTxList state
  ∧ txListById state' = txListById state
  ∧ countOfTxListById state' = countOfTxListById state
  ∧ pendingTxListById state' = pendingTxListById state
  ∧ bestBlockNumber state' = bestBlockNumber state
  ∧ (∀ other, other ≠ address →
       pendingTxList state' !! other = pendingTxList state !! other).
Proof.
  cbn. repeat split.
  intros other Hother. apply lookup_insert_ne. congruence.
Qed.

(** * Concrete runs *)

Ltac below_10 i Hi :=
  let Hc := fresh "Hc" in
  assert (i = 0 ∨ i = 1 ∨ i = 2 ∨ i = 3 ∨ i = 4 ∨ i = 5 ∨ i = 6 ∨ i = 7
          ∨ i = 8 ∨ i = 9) as Hc by (unfold restoringCheckingRange in Hi; lia);
  repeat (destruct Hc as [-> | Hc]); [..| subst i].

Lemma demo_probe active i :
  @usageEvidence (demoExternals active) Platform (demoAddress Platform "tc" "pw" i) "tc"
  = Resolves (active (demoAddress Platform "tc" "pw" i)).
Proof.
  cbn [usageEvidence demoExternals getPlatformAccount result_map nonce].
  by destruct (active _).
Qed.

Lemma discover_no_usage_witness :
  @discover (demoExternals (activeAt [])) Platform "tc" demoStorage
  = Returns ([], withKeys Platform [] demoStorage)
  ∧ keysOf Platform (withKeys Platform [] demoStorage) = Some [].
Proof.
  apply (@discover_no_usage (demoExternals (activeAt [])) Platform "tc" demoStorage
           ["seed"] (demoPubkey Platform "pw") (demoAddress Platform "tc" "pw")
           (λ i, activeAt [] (demoAddress Platform "tc" "pw" i))).
  - reflexivity.
  - intros i Hi. reflexivity.
  - intros i Hi. reflexivity.
  - intros i Hi. apply demo_probe.
  - intros i Hi. reflexivity.
Defined.

Lemma discover_usage_only_at_0_witness :
  @discover (demoExternals (activeAt [0])) Platform "tc" demoStorage
  = Returns ([], withKeys Platform [] demoStorage)
  ∧ keysOf Platform (withKeys Platform [] demoStorage) = Some [].
Proof.
  apply (@discover_usage_only_at_0 (demoExternals (activeAt [0])) Platform "tc"
           demoStorage ["seed"] (demoPubkey Platform "pw")
           (demoAddress Platform "tc" "pw")
           (λ i, activeAt [0] (demoAddress Platform "tc" "pw" i))).
  - reflexivity.
  - intros i Hi. reflexivity.
  - intros i Hi. reflexivity.
  - intros i Hi. apply demo_probe.
  - reflexivity.
  - intros i [Hpos Hi]. below_10 i Hi; try reflexivity. lia.
Defined.

Lemma discover_usage_at_2_and_7_witness :
  @discover (demoExternals (activeAt [2; 7])) Platform "tc" demoStorage
  = Returns
      (candidateAddress Platform (demoAddress Platform "tc" "pw")
         <$> [0; 1; 2; 3; 4; 5; 6; 7],
       withKeys Platform
         (@candidateKey (demoExternals (activeAt [2; 7])) Platform
            (demoPubkey Platform "pw") <$> [0; 1; 2; 3; 4; 5; 6; 7])
         demoStorage)
  ∧ keysOf Platform
      (withKeys Platform
         (@candidateKey (demoExternals (activeAt [2; 7])) Platform
            (demoPubkey Platform "pw") <$> [0; 1; 2; 3; 4; 5; 6; 7])
         demoStorage)
    = Some (@candidateKey (demoExternals (activeAt [2; 7])) Platform
              (demoPubkey Platform "pw") <$> [0; 1; 2; 3; 4; 5; 6; 7]).
Proof.
  apply (@discover_usage_at_2_and_7 (demoExternals (activeAt [2; 7])) Platform "tc"
           demoStorage ["seed"] (demoPubkey Platform "pw")
           (demoAddress Platform "tc" "pw")
           (λ i, activeAt [2; 7] (demoAddress Platform "tc" "pw" i))).
  - reflexivity.
  - intros i Hi. reflexivity.
  - intros i Hi. reflexivity.
  - intros i Hi. apply demo_probe.
  - intros i Hi. below_10 i Hi;
      (split; [intros H; vm_compute in H; first [discriminate H | auto]
              | intros [H|H]; first [discriminate H | reflexivity]]).
Defined.

(** The run of C1 spelled out for the Asset role: the one address with an
    unspent output is at index 0, and nothing is restored. *)
Example restoreAssetAddresses_usage_only_at_0 :
  @restoreAssetAddresses
    (demoExternals (String.eqb "tca:h:pub[seed,pw]m/44'/3276/1'/0/0")) "tc" demoStorage
  = Returns ([], mkStorage (Some "pw") (platformKeys demoStorage) (Some [])).
Proof. vm_compute. reflexivity. Qed.

(** A run with usage at index 1 only keeps the indices 0 and 1. *)
Example restorePlatformAddresses_usage_at_1 :
  @restorePlatformAddresses (demoExternals (activeAt [1])) "tc" freshStorage
  = Returns
      ([WalletAddress.mk "P-address 0" "tcc:h:pub[seed,pw]m/44'/3276/0'/0/0" Platform;
        WalletAddress.mk "P-address 1" "tcc:h:pub[seed,pw]m/44'/3276/0'/0/1" Platform],
       mkStorage (Some "pw")
         (Some [StoredKey.mk 0 Platform "h:pub[seed,pw]m/44'/3276/0'/0/0";
                StoredKey.mk 1 Platform "h:pub[seed,pw]m/44'/3276/0'/0/1"])
         None).
Proof. vm_compute. reflexivity. Qed.

(** Issuance on a fresh store, spelled out: both functions record and
    display index 1; [createPlatformAddress] derives at [.../0/1],
    [createAssetAddress] at [.../0/0], and tags its record [Platform]. *)
Example create_on_fresh_store :
  @createPlatformAddress (demoExternals (activeAt [])) "tc" freshStorage
  = Returns
      (WalletAddress.mk "P-address 1" "tcc:h:pub[seed,]m/44'/3276/0'/0/1" Platform,
       mkStorage (Some "pw")
         (Some [StoredKey.mk 1 Platform "h:pub[seed,]m/44'/3276/0'/0/1"]) None)
  ∧ @createAssetAddress (demoExternals (activeAt [])) "tc" freshStorage
    = Returns
        (WalletAddress.mk "A-address 1" "tca:h:pub[seed,]m/44'/3276/1'/0/0" Asset,
         mkStorage (Some "pw") None
           (Some [StoredKey.mk 1 Platform "h:pub[seed,]m/44'/3276/1'/0/0"])).
Proof. split; vm_compute; reflexivity. Qed.

Lemma demoKey_inj role passphrase i j :
  demoKey role passphrase i = demoKey role passphrase j → i = j.
Proof.
  unfold demoKey, demoPubkey. intros H.
  do 4 apply (inj (String.append _)) in H.
  exact (pathFor_inj _ _ _ H).
Qed.

(** C3, as the code behaves: on every store [createPlatformAddress] derives
    the key at the index it records and displays, whereas the key
    [createAssetAddress] stores is the one derived at the index before the
    recorded and displayed one (the path is built from [pathIndex], not from
    [newPathIndex]), and not the key of the recorded index. *)
Theorem createAssetAddress_derivation_index (st : Storage) :
  (∃ walletAddress st' record,
     @createPlatformAddress (demoExternals (activeAt [])) "tc" st
     = Returns (walletAddress, st')
     ∧ platformKeys st' ≫= last = Some record
     ∧ WalletAddress.name walletAddress = displayName Platform (StoredKey.pathIndex record)
     ∧ StoredKey.key record = demoKey Platform "" (StoredKey.pathIndex record))
  ∧ (∃ walletAddress st' record,
       @createAssetAddress (demoExternals (activeAt [])) "tc" st
       = Returns (walletAddress, st')
       ∧ assetKeys st' ≫= last = Some record
       ∧ WalletAddress.name walletAddress = displayName Asset (StoredKey.pathIndex record)
       ∧ 0 < StoredKey.pathIndex record
       ∧ StoredKey.key record = demoKey Asset "" (StoredKey.pathIndex record - 1)
       ∧ StoredKey.key record ≠ demoKey Asset "" (StoredKey.pathIndex record)).
Proof.
  split.
  - eexists _, _, _. split.
    { apply (@createPlatformAddress_run (demoExternals (activeAt [])) "tc" st
               ["seed"] _ _ eq_refl eq_refl eq_refl). }
    cbn [withKeys platformKeys mbind option_bind]. rewrite last_snoc.
    repeat split.
  - eexists _, _, _. split.
    { apply (@createAssetAddress_run (demoExternals (activeAt [])) "tc" st
               ["seed"] _ _ eq_refl eq_refl eq_refl). }
    cbn [withKeys assetKeys mbind option_bind]. rewrite last_snoc.
    split; [reflexivity|].
    cbn [StoredKey.pathIndex StoredKey.key WalletAddress.name].
    rewrite N.add_sub.
    split; [reflexivity|]. split; [lia|]. split; [reflexivity|].
    intros H. apply (demoKey_inj Asset "") in H. lia.
Qed.

Lemma demo_vault_derives active path :
  resolves (@getPublicKeyFromSeed (demoExternals active) (head ["seed"]) path None).
Proof. eexists. reflexivity. Defined.

Lemma demo_encoder_accepts active role key networkId :
  resolves (@encode (demoExternals active) role key networkId).
Proof. destruct role; eexists; reflexivity. Defined.

Lemma issueNext_empty_index_witness :
  ∃ walletAddress st' record,
    @issueNext (demoExternals (activeAt [])) Asset "tc" freshStorage
    = Returns (walletAddress, st')
    ∧ keysOf Asset st' = Some [record]
    ∧ StoredKey.pathIndex record = 1
    ∧ WalletAddress.name walletAddress = displayName Asset 1.
Proof.
  apply (@issueNext_empty_index (demoExternals (activeAt [])) Asset "tc"
           freshStorage ["seed"]).
  - reflexivity.
  - intros path. apply demo_vault_derives.
  - intros key. apply demo_encoder_accepts.
  - left. reflexivity.
Defined.

Lemma issueNext_nonempty_index_witness :
  ∃ walletAddress st' record,
    @issueNext (demoExternals (activeAt [])) Platform "tc" demoStorage
    = Returns (walletAddress, st')
    ∧ keysOf Platform st'
      = Some ([StoredKey.mk 0 Platform "old0"; StoredKey.mk 1 Platform "old1"]
              ++ [record])%list
    ∧ StoredKey.pathIndex record = 1 + 2.
Proof.
  apply (@issueNext_nonempty_index (demoExternals (activeAt [])) Platform "tc"
           demoStorage ["seed"]
           [StoredKey.mk 0 Platform "old0"; StoredKey.mk 1 Platform "old1"]
           (StoredKey.mk 1 Platform "old1")).
  - reflexivity.
  - intros path. apply demo_vault_derives.
  - intros key. apply demo_encoder_accepts.
  - reflexivity.
  - reflexivity.
Defined.

Lemma createAssetAddress_record_type_witness :
  ∃ walletAddress st' record,
    @createAssetAddress (demoExternals (activeAt [])) "tc" demoStorage
    = Returns (walletAddress, st')
    ∧ assetKeys st' = Some ([StoredKey.mk 4 Asset "old4"] ++ [record])%list
    ∧ StoredKey.type record = Platform
    ∧ WalletAddress.type walletAddress = Asset.
Proof.
  apply (@createAssetAddress_record_type (demoExternals (activeAt [])) "tc"
           demoStorage ["seed"]).
  - reflexivity.
  - intros path. apply demo_vault_derives.
  - intros key. apply (demo_encoder_accepts (activeAt []) Asset).
Defined.

Lemma discover_deterministic_witness :
  @observed Platform (@discover (demoExternals (activeAt [2; 7])) Platform "tc" demoStorage)
  = @observed Platform (@discover (demoExternals (activeAt [2; 7])) Platform "tc" freshStorage).
Proof.
  apply (@discover_deterministic (demoExternals (activeAt [2; 7])) Platform "tc"
           demoStorage freshStorage).
  reflexivity.
Defined.

Lemma pathFor_injective_witness :
  pathFor Asset 3 ≠ pathFor Asset 13 ∧ pathFor Platform 3 ≠ pathFor Asset 3.
Proof.
  destruct (pathFor_injective Asset 3 13) as [Hindex Hrole].
  split; [apply Hindex; discriminate | exact Hrole].
Defined.

Lemma chainReducer_CachePendingTxList_frame_witness :
  let state := mkChainState unit {["a" := None]} {["a" := None]} ∅ ∅ ∅ ∅ null in
  let state' := chainReducer 1700000000000 (Some state) (CachePendingTxList "b" [()]) in
  txList state' = txList state
  ∧ bestBlockNumber state' = bestBlockNumber state
  ∧ pendingTxList state' !! "a" = pendingTxList state !! "a".
Proof.
  intros state state'.
  destruct (chainReducer_CachePendingTxList_frame 1700000000000 state "b" [()])
    as (Htx & _ & _ & _ & _ & Hbest & Hpending).
  split; [exact Htx|]. split; [exact Hbest|].
  apply Hpending. discriminate.
Defined.

(** * Further properties of the keystore *)

Lemma length_indices n : ∀ c, length (indices c n) = n.
Proof. induction n as [|n IH]; intros c; simpl; [reflexivity|]. by rewrite IH. Qed.

Lemma lookup_indices n : ∀ c (k : nat),
  (k < n)%nat → indices c n !! k = Some (c + N.of_nat k).
Proof.
  induction n as [|n IH]; intros c k Hk; [lia|].
  destruct k as [|k]; simpl.
  - f_equal. lia.
  - rewrite IH by lia. f_equal. lia.
Qed.

Lemma take_indices n : ∀ c (m : nat), take m (indices c n) = indices c (m `min` n).
Proof.
  induction n as [|n IH]; intros c m; simpl.
  - rewrite Nat.min_0_r. by destruct m.
  - destruct m as [|m]; simpl; [reflexivity|]. by rewrite IH.
Qed.

Lemma last_indices n : ∀ c, last (indices c (S n)) = Some (c + N.of_nat n).
Proof.
  induction n as [|n IH]; intros c.
  - simpl. f_equal. lia.
  - change (indices c (S (S n))) with (c :: indices (c + 1) (S n)).
    destruct (indices (c + 1) (S n)) eqn:Hrest; [discriminate|].
    rewrite last_cons_cons, <- Hrest, IH. f_equal. lia.
Qed.

(** Among the indices below [n], one with usage evidence is followed by a
    last one with usage evidence. *)
Lemma last_used_exists (used : N → bool) (n : nat) : ∀ i,
  used i = true → i < N.of_nat n →
  ∃ lastUsed, i ≤ lastUsed < N.of_nat n ∧ used lastUsed = true
    ∧ ∀ j, lastUsed < j < N.of_nat n → used j = false.
Proof.
  induction n as [|n IH]; intros i Hi Hlt; [lia|].
  destruct (used (N.of_nat n)) eqn:Hn.
  - exists (N.of_nat n). split; [lia|]. split; [exact Hn|]. intros j Hj. lia.
  - assert (i ≠ N.of_nat n) by congruence.
    destruct (IH i Hi ltac:(lia)) as (l & Hl & Hused & Hlater).
    exists l. split; [lia|]. split; [exact Hused|].
    intros j Hj. destruct (N.eq_dec j (N.of_nat n)) as [->|Hne]; [exact Hn|].
    apply Hlater. lia.
Qed.

(** Whatever the usage pattern, what is kept is the candidates of the
    indices below some [m], the same [m] for addresses and records. *)
Lemma restored_prefix (used : N → bool) :
  ∃ m : nat, (m ≤ N.to_nat restoringCheckingRange)%nat
    ∧ ∀ (A : Type) (f : N → A),
        restored used (f <$> indices 0 (N.to_nat restoringCheckingRange))
        = f <$> indices 0 m.
Proof.
  unfold restored.
  destruct (lastUsedFrom used None _) as [lastValid|];
    [destruct (js_not lastValid)|].
  - exists 0%nat. split; [lia|]. reflexivity.
  - exists (N.to_nat (lastValid + 1) `min` N.to_nat restoringCheckingRange)%nat.
    split; [lia|]. intros A f. unfold slice0.
    by rewrite <- fmap_take, take_indices.
  - exists 0%nat. split; [lia|]. reflexivity.
Qed.

Lemma lookup_fmap_indices {A} (f : N → A) (m k : nat) (x : A) :
  (f <$> indices 0 m) !! k = Some x → (k < m)%nat ∧ x = f (N.of_nat k).
Proof.
  intros Hk.
  assert (k < m)%nat as Hlt.
  { apply lookup_lt_Some in Hk. by rewrite length_fmap, length_indices in Hk. }
  split; [exact Hlt|].
  rewrite list_lookup_fmap, (lookup_indices _ _ _ Hlt) in Hk.
  injection Hk as <-. reflexivity.
Qed.

Section DiscoveryProperties.

Context `{ext : Externals}.

Variables (role : AddressType) (networkId : NetworkId) (st : Storage).
Variables (seedHashes : list string) (pubkey address : N → string) (used : N → bool).

Hypothesis seeds_ok : getSeedHashes = Resolves seedHashes.
Hypothesis derive_ok : ∀ i, i < restoringCheckingRange →
  getPublicKeyFromSeed (head seedHashes) (pathFor role i) (passphrase st)
  = Resolves (pubkey i).
Hypothesis encode_ok : ∀ i, i < restoringCheckingRange →
  encode role (blake160 (pubkey i)) networkId = Resolves (address i).
Hypothesis probe_ok : ∀ i, i < restoringCheckingRange →
  usageEvidence role (address i) networkId = Resolves (used i).

(** X1: when the last index with usage evidence is [lastUsed] and is not 0,
    discovery returns exactly [lastUsed + 1] addresses and persists as many
    records; the entry at position [i] is the candidate of index [i],
    whether index [i] was used or not. *)
Theorem discover_entries_up_to_last_used (lastUsed : N) :
  0 < lastUsed < restoringCheckingRange →
  used lastUsed = true →
  (∀ j, lastUsed < j < restoringCheckingRange → used j = false) →
  ∃ walletAddresses st' records,
    discover role networkId st = Returns (walletAddresses, st')
    ∧ keysOf role st' = Some records
    ∧ length walletAddresses = S (N.to_nat lastUsed)
    ∧ length records = S (N.to_nat lastUsed)
    ∧ ∀ i, i ≤ lastUsed →
        walletAddresses !! N.to_nat i = Some (candidateAddress role address i)
        ∧ records !! N.to_nat i = Some (candidateKey role pubkey i).
Proof.
  intros Hrange Hused Hlater.
  eexists _, _, _. split.
  { exact (discover_truncates role networkId st seedHashes pubkey address used
             seeds_ok derive_ok encode_ok probe_ok lastUsed Hrange Hused Hlater). }
  rewrite keysOf_withKeys. split; [reflexivity|].
  rewrite !length_fmap, !length_indices.
  split; [lia|]. split; [lia|].
  intros i Hi. rewrite !list_lookup_fmap, lookup_indices by lia.
  rewrite N.add_0_l, N2Nat.id. split; reflexivity.
Qed.

(** X2: whatever the usage pattern, the addresses discovery returns and the
    records it persists are aligned: there are as many of each, at most
    [restoringCheckingRange]; the record at position [k] has [pathIndex = k]
    and the tag of the role, and the address at position [k] is named after
    [k], tagged with the role, and is the encoding of that record's key. *)
Theorem discover_aligned :
  ∃ walletAddresses st' records,
    discover role networkId st = Returns (walletAddresses, st')
    ∧ keysOf role st' = Some records
    ∧ length walletAddresses = length records
    ∧ (length records ≤ N.to_nat restoringCheckingRange)%nat
    ∧ ∀ (k : nat) walletAddress record,
        walletAddresses !! k = Some walletAddress →
        records !! k = Some record →
        StoredKey.pathIndex record = N.of_nat k
        ∧ StoredKey.type record = role
        ∧ WalletAddress.name walletAddress = displayName role (N.of_nat k)
        ∧ WalletAddress.type walletAddress = role
        ∧ encode role (StoredKey.key record) networkId
          = Resolves (WalletAddress.address walletAddress).
Proof.
  destruct (restored_prefix used) as (m & Hm & Hprefix).
  eexists _, _, _. split.
  { exact (discover_run role networkId st seedHashes pubkey address used
             seeds_ok derive_ok encode_ok probe_ok). }
  rewrite keysOf_withKeys, !Hprefix. split; [reflexivity|].
  rewrite !length_fmap, !length_indices. split; [reflexivity|]. split; [exact Hm|].
  intros k walletAddress record Hwa Hrecord.
  apply lookup_fmap_indices in Hwa as [Hk ->].
  apply lookup_fmap_indices in Hrecord as [_ ->].
  repeat split. cbn [candidateKey candidateAddress StoredKey.key WalletAddress.address].
  apply encode_ok. lia.
Qed.

(** X3: an index other than 0 with usage evidence is never lost: its
    address is among those discovery returns and its record among those it
    persists. *)
Theorem discover_keeps_used_index (i : N) :
  0 < i < restoringCheckingRange →
  used i = true →
  ∃ walletAddresses st' records,
    discover role networkId st = Returns (walletAddresses, st')
    ∧ keysOf role st' = Some records
    ∧ candidateAddress role address i ∈ walletAddresses
    ∧ candidateKey role pubkey i ∈ records.
Proof.
  intros Hi Hused.
  destruct (last_used_exists used (N.to_nat restoringCheckingRange) i Hused
              ltac:(lia)) as (lastUsed & Hlast & HlastUsed & Hlater).
  eexists _, _, _. split.
  { apply (discover_truncates role networkId st seedHashes pubkey address used
             seeds_ok derive_ok encode_ok probe_ok lastUsed); [lia|exact HlastUsed|].
    intros j Hj. apply Hlater. lia. }
  rewrite keysOf_withKeys. split; [reflexivity|].
  assert (indices 0 (N.to_nat (lastUsed + 1)) !! N.to_nat i = Some i) as Hlookup.
  { rewrite lookup_indices by lia. f_equal. lia. }
  split; apply list_elem_of_fmap; exists i;
    (split; [reflexivity|]); by eapply list_elem_of_lookup_2.
Qed.

End DiscoveryProperties.

Section DiscoveryFailure.

Context `{ext : Externals}.

(** One iteration of the scanning loop, in terms of [probeAt]. *)
Lemma restoreLoop_step role (fuel : nat) seedHash networkId (s : Scan) st :
  currentPath s < restoringCheckingRange →
  restoreLoop role (S fuel) seedHash networkId s st
  = match probeAt role networkId seedHash (passphrase st) (currentPath s) with
    | Resolves (pubkey, address, used) =>
      restoreLoop role fuel seedHash networkId
        (mkScan (currentPath s + 1)
           (addresses s ++
              [WalletAddress.mk (displayName role (currentPath s)) address role])
           (keys s ++ [StoredKey.mk (currentPath s) role (blake160 pubkey)])
           (if used then Some (currentPath s) else lastValidPathIndex s))
        st
    | Rejects e => Throws e
    end.
Proof.
  intros Hlt. apply N.ltb_lt in Hlt. unfold probeAt.
  destruct role; cbn [restoreLoop restorePlatformLoop restoreAssetLoop
                       pathFor encode usageEvidence displayName];
    rewrite Hlt, bind_getPassphrase;
    (destruct (getPublicKeyFromSeed _ _ _) as [pk|e1];
       [rewrite bind_await_Resolves | reflexivity]).
  - destruct (PlatformAddress_fromAccountId _ _) as [a|e2];
      [rewrite bind_await_Resolves | reflexivity].
    destruct (getPlatformAccount _ _) as [acc|e3]; reflexivity.
  - destruct (AssetTransferAddress_fromTypeAndPayload _ _ _) as [a|e2];
      [rewrite bind_await_Resolves | reflexivity].
    destruct (getAggsUTXOList _ _) as [utxo|e3]; reflexivity.
Qed.

Lemma restoreLoop_throws role seedHash networkId st (failing : N) (e : string) :
  failing < restoringCheckingRange →
  (∀ i, i < failing →
     ∃ r, probeAt role networkId seedHash (passphrase st) i = Resolves r) →
  probeAt role networkId seedHash (passphrase st) failing = Rejects e →
  ∀ (n fuel : nat) (s : Scan),
    currentPath s + N.of_nat n = failing → (n < fuel)%nat →
    restoreLoop role fuel seedHash networkId s st = Throws e.
Proof.
  intros Hfailing Hbefore Hfails.
  induction n as [|n IH]; intros fuel s Hc Hfuel;
    (destruct fuel as [|fuel]; [lia|]); rewrite restoreLoop_step by lia.
  - replace (currentPath s) with failing by lia. by rewrite Hfails.
  - destruct (Hbefore (currentPath s) ltac:(lia)) as ([[pubkey address] used] & ->).
    apply IH; cbn [currentPath]; lia.
Qed.

(** X4: when a call to the vault, the encoder or the ledger probe fails at
    an index of the scan range, after the calls at the earlier indices
    succeeded, discovery throws that exception: it returns no address, even
    when usage evidence was found at an earlier index. *)
Theorem discover_propagates_failure role networkId st seedHashes
    (failing : N) (e : string) :
  getSeedHashes = Resolves seedHashes →
  failing < restoringCheckingRange →
  (∀ i, i < failing →
     ∃ r, probeAt role networkId (head seedHashes) (passphrase st) i = Resolves r) →
  probeAt role networkId (head seedHashes) (passphrase st) failing = Rejects e →
  discover role networkId st = Throws e.
Proof.
  intros Hseeds Hfailing Hbefore Hfails.
  pose proof (restoreLoop_throws role (head seedHashes) networkId st failing e
                Hfailing Hbefore Hfails (N.to_nat failing)
                (S (N.to_nat restoringCheckingRange)) (mkScan 0 [] [] None)
                ltac:(cbn [currentPath]; lia) ltac:(lia)) as Hloop.
  destruct role; cbn [discover restoreLoop] in Hloop |- *;
    unfold restorePlatformAddresses, restoreAssetAddresses;
    rewrite (bind_returns _ _ _ _ _ (getFirstSeedHash_run _ _ Hseeds));
    rewrite bind_eq, Hloop; reflexivity.
Qed.

Lemma restoreLoop_done role (fuel : nat) seedHash networkId (s : Scan) st :
  restoringCheckingRange ≤ currentPath s →
  restoreLoop role (S fuel) seedHash networkId s st = Returns (s, st).
Proof.
  intros Hge. apply N.ltb_ge in Hge.
  destruct role; cbn [restoreLoop restorePlatformLoop restoreAssetLoop];
    rewrite Hge; reflexivity.
Qed.

(** The loop pushes one address and one record per iteration. *)
Lemma restoreLoop_lengths role seedHash networkId st (fuel : nat) :
  ∀ (s s' : Scan) st',
  restoreLoop role fuel seedHash networkId s st = Returns (s', st') →
  length (addresses s) = length (keys s) →
  length (addresses s') = length (keys s').
Proof.
  induction fuel as [|fuel IH]; intros s s' st' Hrun Hlen.
  - destruct role; discriminate Hrun.
  - destruct (N.lt_ge_cases (currentPath s) restoringCheckingRange) as [Hlt|Hge].
    + rewrite restoreLoop_step in Hrun by exact Hlt.
      destruct (probeAt _ _ _ _ _) as [[[pubkey address] used]|]; [|discriminate].
      apply IH in Hrun; [exact Hrun|].
      cbn [addresses keys]. rewrite !length_app, Hlen. reflexivity.
    + rewrite restoreLoop_done in Hrun by exact Hge.
      injection Hrun as <- <-. exact Hlen.
Qed.

(** X5: discovery for one role leaves the passphrase and the records of
    the other role as they were, and always overwrites the records of its
    own role. *)
Theorem discover_frame role networkId st walletAddresses st' :
  discover role networkId st = Returns (walletAddresses, st') →
  passphrase st' = passphrase st
  ∧ keysOf (otherRole role) st' = keysOf (otherRole role) st
  ∧ ∃ records, keysOf role st' = Some records
      ∧ length records = length walletAddresses.
Proof.
  pose proof (λ seedHash, restoreLoop_frame role seedHash networkId
                (S (N.to_nat restoringCheckingRange)) (mkScan 0 [] [] None)
                st st eq_refl) as Hframe.
  pose proof (λ seedHash, restoreLoop_lengths role seedHash networkId st
                (S (N.to_nat restoringCheckingRange)) (mkScan 0 [] [] None))
    as Hlengths.
  destruct role; cbn [discover restoreLoop otherRole keysOf] in Hframe, Hlengths |- *;
    unfold restorePlatformAddresses, restoreAssetAddresses;
    rewrite bind_eq, getFirstSeedHash_eq;
    (destruct getSeedHashes as [seedHashes|]; [|discriminate]);
    cbn beta iota; rewrite bind_eq, (Hframe (head seedHashes));
    specialize (Hlengths (head seedHashes));
    lazymatch goal with
    | |- context [outcome_map _ (?loop ?fuel ?h ?n ?s0 st)] =>
      destruct (loop fuel h n s0 st) as [[s st0]| |]; [|discriminate..]
    end;
    specialize (Hlengths s st0 eq_refl eq_refl);
    cbn [outcome_map fst snd];
    (destruct (lastValidPathIndex s) as [lastValid|];
       [destruct (js_not lastValid)|]);
    intros [= <- <-]; cbn; repeat split; eexists; (split; [reflexivity|]);
    unfold slice0; rewrite ?length_take, ?Hlengths; reflexivity.
Qed.

End DiscoveryFailure.

Section IssuanceProperties.

Context `{ext : Externals}.

(** What a returning issuance has done. *)
Lemma issueNext_inv role networkId st walletAddress st' :
  issueNext role networkId st = Returns (walletAddress, st') →
  ∃ key address,
    walletAddress
    = WalletAddress.mk (displayName role (issuanceBase (keysOf role st) + 1))
        address role
    ∧ st' = withKeys role
              (default [] (keysOf role st) ++
               [StoredKey.mk (issuanceBase (keysOf role st) + 1) Platform key])
              st.
Proof.
  destruct role; cbn [issueNext keysOf displayName];
    unfold createPlatformAddress, createAssetAddress;
    rewrite bind_eq, getFirstSeedHash_eq;
    (destruct getSeedHashes as [seedHashes|]; [|discriminate]);
    cbn beta iota; rewrite bind_eq; cbn [getPlatformKeys getAssetKeys];
    rewrite (bind_returns _ _ _ _ _ (pathIndex_run _ _));
    (destruct (getPublicKeyFromSeed _ _ _) as [pubkey|];
       [rewrite bind_await_Resolves | discriminate]);
    rewrite bind_eq.
  - destruct (platformKeys st) as [[|k ks]|]; cbn [savePlatformKeys];
      (destruct (PlatformAddress_fromAccountId _ _) as [address|];
         [rewrite bind_await_Resolves | discriminate]);
      intros [= <- <-]; eexists _, _; split; reflexivity.
  - destruct (assetKeys st) as [[|k ks]|]; cbn [saveAssetKeys];
      (destruct (AssetTransferAddress_fromTypeAndPayload _ _ _) as [address|];
         [rewrite bind_await_Resolves | discriminate]);
      intros [= <- <-]; eexists _, _; split; reflexivity.
Qed.

Lemma keysOf_withKeys_other role keys st :
  keysOf (otherRole role) (withKeys role keys st) = keysOf (otherRole role) st.
Proof. destruct role; reflexivity. Qed.

Lemma passphrase_withKeys role keys st :
  passphrase (withKeys role keys st) = passphrase st.
Proof. destruct role; reflexivity. Qed.

(** X6: issuance is append-only.  When it returns, the records stored for
    the role are the earlier ones followed by one new record, the records of
    the other role and the passphrase are untouched, and the returned address
    carries the role's tag and is named after the new record's index. *)
Theorem issueNext_appends role networkId st walletAddress st' :
  issueNext role networkId st = Returns (walletAddress, st') →
  ∃ record,
    keysOf role st' = Some (default [] (keysOf role st) ++ [record])%list
    ∧ keysOf (otherRole role) st' = keysOf (otherRole role) st
    ∧ passphrase st' = passphrase st
    ∧ WalletAddress.type walletAddress = role
    ∧ WalletAddress.name walletAddress = displayName role (StoredKey.pathIndex record).
Proof.
  intros Hrun. apply issueNext_inv in Hrun as (key & address & -> & ->).
  eexists. rewrite keysOf_withKeys, keysOf_withKeys_other, passphrase_withKeys.
  repeat split.
Qed.

(** X7: issuance is monotonic.  The index of the record it appends is
    greater than the index of the last record stored before, and two
    issuances in a row append records whose indices differ by 2. *)
Theorem issueNext_monotonic role networkId st walletAddress1 st1 walletAddress2 st2 :
  issueNext role networkId st = Returns (walletAddress1, st1) →
  issueNext role networkId st1 = Returns (walletAddress2, st2) →
  ∃ record1 record2,
    keysOf role st2 = Some (default [] (keysOf role st) ++ [record1; record2])%list
    ∧ StoredKey.pathIndex record2 = StoredKey.pathIndex record1 + 2
    ∧ ∀ lastKey, keysOf role st ≫= last = Some lastKey →
        StoredKey.pathIndex lastKey < StoredKey.pathIndex record1.
Proof.
  intros Hrun1 Hrun2.
  apply issueNext_inv in Hrun1 as (key1 & address1 & -> & ->).
  apply issueNext_inv in Hrun2 as (key2 & address2 & -> & ->).
  eexists _, _. rewrite !keysOf_withKeys. cbn [default from_option id].
  split; [by rewrite <- app_assoc|]. split.
  - cbn [StoredKey.pathIndex].
    rewrite (issuanceBase_last _ _ (last_snoc _ _)). cbn [StoredKey.pathIndex]. lia.
  - intros lastKey Hlast. cbn [StoredKey.pathIndex].
    destruct (keysOf role st) as [saved|]; [|discriminate].
    cbn [mbind option_bind] in Hlast.
    rewrite (issuanceBase_last _ _ Hlast). lia.
Qed.

(** X8: issuance reads nothing of the store but the records of its role:
    on two stores that agree on them, whatever their passphrases and the
    records of the other role, it returns the same address (or fails alike)
    and persists the same records. *)
Theorem issueNext_reads_own_records role networkId (st1 st2 : Storage) :
  keysOf role st1 = keysOf role st2 →
  issued role (issueNext role networkId st1)
  = issued role (issueNext role networkId st2).
Proof.
  intros Hkeys. unfold issued.
  destruct role; cbn [issueNext keysOf] in Hkeys |- *;
    unfold createPlatformAddress, createAssetAddress;
    rewrite !bind_eq, !getFirstSeedHash_eq;
    (destruct getSeedHashes as [seedHashes|]; [|reflexivity]);
    cbn beta iota; rewrite !bind_eq; cbn [getPlatformKeys getAssetKeys];
    rewrite Hkeys, !(bind_returns _ _ _ _ _ (pathIndex_run _ _));
    (destruct (getPublicKeyFromSeed _ _ _) as [pubkey|]; [|reflexivity]);
    rewrite !bind_await_Resolves, !bind_eq.
  - destruct (platformKeys st2) as [[|k ks]|]; cbn [savePlatformKeys];
      (destruct (PlatformAddress_fromAccountId _ _) as [address|]; reflexivity).
  - destruct (assetKeys st2) as [[|k ks]|]; cbn [saveAssetKeys];
      (destruct (AssetTransferAddress_fromTypeAndPayload _ _ _) as [address|];
         reflexivity).
Qed.

End IssuanceProperties.

Section IssuanceAfterDiscovery.

Context `{ext : Externals}.

Variables (role : AddressType) (networkId : NetworkId) (st : Storage).
Variables (seedHashes : list string) (pubkey address : N → string) (used : N → bool).

Hypothesis seeds_ok : getSeedHashes = Resolves seedHashes.
Hypothesis derive_ok : ∀ i, i < restoringCheckingRange →
  getPublicKeyFromSeed (head seedHashes) (pathFor role i) (passphrase st)
  = Resolves (pubkey i).
Hypothesis encode_ok : ∀ i, i < restoringCheckingRange →
  encode role (blake160 (pubkey i)) networkId = Resolves (address i).
Hypothesis probe_ok : ∀ i, i < restoringCheckingRange →
  usageEvidence role (address i) networkId = Resolves (used i).
Hypothesis vault_ok :
  ∀ path, resolves (getPublicKeyFromSeed (head seedHashes) path None).
Hypothesis encoder_ok : ∀ key, resolves (encode role key networkId).

(** X9: issuance after discovery.  When discovery restored the indices 0 to
    [lastUsed], the next issuance appends a record with index
    [lastUsed + 2] and names its address after that index: the records then
    hold the indices 0 to [lastUsed] and [lastUsed + 2], and none with index
    [lastUsed + 1]. *)
Theorem issueNext_after_discover (lastUsed : N) :
  0 < lastUsed < restoringCheckingRange →
  used lastUsed = true →
  (∀ j, lastUsed < j < restoringCheckingRange → used j = false) →
  ∃ walletAddresses st1 walletAddress st2 key,
    discover role networkId st = Returns (walletAddresses, st1)
    ∧ issueNext role networkId st1 = Returns (walletAddress, st2)
    ∧ WalletAddress.name walletAddress = displayName role (lastUsed + 2)
    ∧ keysOf role st2
      = Some ((candidateKey role pubkey <$> indices 0 (S (N.to_nat lastUsed)))
              ++ [StoredKey.mk (lastUsed + 2) Platform key])%list
    ∧ StoredKey.pathIndex <$>
        ((candidateKey role pubkey <$> indices 0 (S (N.to_nat lastUsed)))
         ++ [StoredKey.mk (lastUsed + 2) Platform key])%list
      = (indices 0 (S (N.to_nat lastUsed)) ++ [lastUsed + 2])%list.
Proof.
  intros Hrange Hused Hlater.
  pose proof (discover_truncates role networkId st seedHashes pubkey address used
                seeds_ok derive_ok encode_ok probe_ok lastUsed Hrange Hused Hlater)
    as Hdiscover.
  replace (N.to_nat (lastUsed + 1)) with (S (N.to_nat lastUsed)) in Hdiscover by lia.
  set (records := candidateKey role pubkey <$> indices 0 (S (N.to_nat lastUsed))) in *.
  destruct (issueNext_run role networkId (withKeys role records st) seedHashes
              seeds_ok vault_ok encoder_ok) as (key & address' & Hissue).
  assert (issuanceBase (Some records) = lastUsed + 1) as Hbase.
  { rewrite (issuanceBase_last records (candidateKey role pubkey lastUsed)).
    - reflexivity.
    - unfold records. rewrite fmap_last, last_indices. cbn. f_equal. f_equal. lia. }
  rewrite keysOf_withKeys, Hbase in Hissue. cbn [default from_option id] in Hissue.
  replace (lastUsed + 1 + 1) with (lastUsed + 2) in Hissue by lia.
  eexists _, _, _, _, key. split; [exact Hdiscover|]. split; [exact Hissue|].
  split; [reflexivity|]. rewrite keysOf_withKeys. split; [reflexivity|].
  rewrite fmap_app. unfold records. rewrite <- list_fmap_compose.
  cbn [fmap list_fmap StoredKey.pathIndex]. f_equal.
  apply list_fmap_id.
Qed.

End IssuanceAfterDiscovery.

(** X10: no derivation path is shared by the two roles, at any pair of
    indices. *)
Theorem pathFor_roles_disjoint (i j : N) : pathFor Platform i ≠ pathFor Asset j.
Proof.
  unfold pathFor, platformAddressPath, assetAddressPath. simpl.
  intros Hpath. discriminate Hpath.
Qed.

(** X11: the display name determines the role and the index: no two
    addresses of the wallet that differ in role or in index get the same
    name. *)
Theorem displayName_inj (role role' : AddressType) (i j : N) :
  displayName role i = displayName role' j → role = role' ∧ i = j.
Proof.
  intros Hname.
  destruct role, role'; unfold displayName in Hname; simpl in Hname;
    try discriminate Hname;
    (split; [reflexivity|]);
    injection Hname as Hname; exact (number_to_string_inj _ _ Hname).
Qed.

(** * Further properties of the chain reducer *)

Section ChainProperties.

Context {TransactionDoc : Type}.

Implicit Types (state : ChainState TransactionDoc) (action : Action TransactionDoc).

(** X12: every action changes at most the entry it targets.  In each table
    an entry under a key that is not the action's target is as before, the
    best block number is as before unless the action targets it, and no
    action changes [pendingTxListById]. *)
Theorem chainReducer_frame (now : N) state action :
  let state' := chainReducer now (Some state) action in
  (∀ k, target action ≠ Some (PendingTxListSlot, k) →
     pendingTxList state' !! k = pendingTxList state !! k)
  ∧ (∀ k, target action ≠ Some (TxListSlot, k) →
       txList state' !! k = txList state !! k)
  ∧ (∀ k, target action ≠ Some (CountOfTxListSlot, k) →
       countOfTxList state' !! k = countOfTxList state !! k)
  ∧ (∀ k, target action ≠ Some (TxListByIdSlot, k) →
       txListById state' !! k = txListById state !! k)
  ∧ (∀ k, target action ≠ Some (CountOfTxListByIdSlot, k) →
       countOfTxListById state' !! k = countOfTxListById state !! k)
  ∧ (target action ≠ Some (BestBlockNumberSlot, "") →
       bestBlockNumber state' = bestBlockNumber state)
  ∧ pendingTxListById state' = pendingTxListById state.
Proof.
  destruct action; cbn [chainReducer target default from_option id
    pendingTxList txList countOfTxList txListById countOfTxListById
    bestBlockNumber pendingTxListById];
    repeat split; try reflexivity; try congruence;
    intros k Hk; apply lookup_insert_ne; congruence.
Qed.

(** X13: the reducer never removes an entry: a key that has an entry in a
    table still has one after any action. *)
Theorem chainReducer_keeps_entries (now : N) state action (k : string) :
  let state' := chainReducer now (Some state) action in
  (is_Some (pendingTxList state !! k) → is_Some (pendingTxList state' !! k))
  ∧ (is_Some (txList state !! k) → is_Some (txList state' !! k))
  ∧ (is_Some (countOfTxList state !! k) → is_Some (countOfTxList state' !! k))
  ∧ (is_Some (txListById state !! k) → is_Some (txListById state' !! k))
  ∧ (is_Some (countOfTxListById state !! k) → is_Some (countOfTxListById state' !! k))
  ∧ (is_Some (pendingTxListById state !! k) → is_Some (pendingTxListById state' !! k)).
Proof.
  destruct action; cbn [chainReducer default from_option id
    pendingTxList txList countOfTxList txListById countOfTxListById
    pendingTxListById];
    repeat split; intros Hk; try exact Hk;
    apply lookup_insert_is_Some'; right; exact Hk.
Qed.


(** X15: a storing action ([Cache...], [UpdateBestBlockNumber]) overrides
    whatever an earlier action wrote to the same target: reducing it after
    that action gives the same state as reducing it alone. *)
Theorem chainReducer_store_overrides (now1 now2 : N) state
    (action1 action2 : Action TransactionDoc) :
  stores action2 = true →
  target action1 = target action2 →
  chainReducer now2 (Some (chainReducer now1 (Some state) action1)) action2
  = chainReducer now2 (Some state) action2.
Proof.
  intros Hstores Htarget.
  destruct action1, action2; try discriminate Hstores; try discriminate Htarget;
    cbn [chainReducer target default from_option id
      pendingTxList txList countOfTxList txListById countOfTxListById
      bestBlockNumber pendingTxListById] in Htarget |- *;
    try reflexivity;
    injection Htarget as ->; f_equal; apply insert_insert_eq.
Qed.

Lemma spread_fetching_idem {T} (entry : option (option (Cached T))) :
  spread_fetching (Some (Some (spread_fetching entry))) = spread_fetching entry.
Proof. by destruct entry as [[c|]|]. Qed.

(** X16: marking a fetch as started is idempotent: reducing a
    [SetFetching...] action twice gives the same state as reducing it
    once. *)
Theorem chainReducer_fetching_idempotent (now1 now2 : N) state action :
  stores action = false →
  chainReducer now2 (Some (chainReducer now1 (Some state) action)) action
  = chainReducer now1 (Some state) action.
Proof.
  intros Hstores.
  destruct action; try discriminate Hstores;
    cbn [chainReducer default from_option id
      pendingTxList txList countOfTxList txListById countOfTxListById
      bestBlockNumber pendingTxListById];
    try reflexivity;
    f_equal;
    rewrite ?lookup_insert_eq, ?insert_insert_eq, ?spread_fetching_idem;
    try reflexivity.
  destruct (bestBlockNumber state); reflexivity.
Qed.

Lemma fetchingOver_spread {T} (before : option (option (Cached T))) :
  fetchingOver before (Some (Some (spread_fetching before))).
Proof. eexists. split; [reflexivity|]. by destruct before as [[c|]|]. Qed.

(** X17: marking a fetch as started keeps what was cached.  After a
    [SetFetching...] action the targeted entry exists and is fetching, and
    its data and update time are those it had before (absent when there was
    no entry or a [null] one). *)
Theorem chainReducer_fetching_keeps_data (now : N) state
    (address : string) (assetType : H160) :
  let id := getIdByAddressAssetType address assetType in
  fetchingOver (pendingTxList state !! address)
    (pendingTxList (chainReducer now (Some state) (SetFetchingPendingTxList address))
       !! address)
  ∧ fetchingOver (txList state !! address)
      (txList (chainReducer now (Some state) (SetFetchingTxList address)) !! address)
  ∧ fetchingOver (countOfTxList state !! address)
      (countOfTxList (chainReducer now (Some state) (SetFetchingCountOfTxList address))
         !! address)
  ∧ fetchingOver (txListById state !! id)
      (txListById
         (chainReducer now (Some state) (SetFetchingTxListById address assetType)) !! id)
  ∧ fetchingOver (countOfTxListById state !! id)
      (countOfTxListById
         (chainReducer now (Some state) (SetFetchingCountOfTxListById address assetType))
         !! id).
Proof.
  cbn [chainReducer default from_option id
    pendingTxList txList countOfTxList txListById countOfTxListById].
  rewrite !lookup_insert_eq. repeat split; apply fetchingOver_spread.
Qed.

End ChainProperties.

Lemma no_dash_cons c s :
  no_dash (String c s) = true → c ≠ Ascii.ascii_of_nat 45 ∧ no_dash s = true.
Proof.
  simpl. intros [Hc Hs]%andb_true_iff. split; [|exact Hs].
  apply negb_true_iff, Ascii.eqb_neq in Hc. exact Hc.
Qed.

(** X18: the id of an address and an asset type determines both, as long
    as addresses contain no [-]: the by-id tables then keep one entry per
    pair of address and asset type. *)
Theorem getIdByAddressAssetType_inj (address1 address2 : string) (assetType1 assetType2 : H160) :
  no_dash address1 = true →
  no_dash address2 = true →
  getIdByAddressAssetType address1 assetType1
  = getIdByAddressAssetType address2 assetType2 →
  address1 = address2 ∧ assetType1 = assetType2.
Proof.
  unfold getIdByAddressAssetType.
  revert address2. induction address1 as [|c1 s1 IH]; intros [|c2 s2] H1 H2 Hid;
    simpl in Hid.
  - injection Hid as Hvalue. split; [reflexivity|].
    apply (inj (String.append _)) in Hvalue.
    destruct assetType1, assetType2; simpl in Hvalue; congruence.
  - apply no_dash_cons in H2 as [Hc2 _]. injection Hid as Hc _.
    subst c2. exfalso. apply Hc2. reflexivity.
  - apply no_dash_cons in H1 as [Hc1 _]. injection Hid as Hc _.
    subst c1. exfalso. apply Hc1. reflexivity.
  - apply no_dash_cons in H1 as [_ H1]. apply no_dash_cons in H2 as [_ H2].
    injection Hid as -> Hid.
    destruct (IH s2 H1 H2 Hid) as [-> ->]. split; reflexivity.
Qed.

(** The condition is needed: an address with a [-] can share its id with
    another pair. *)
Example getIdByAddressAssetType_collision :
  getIdByAddressAssetType "a-b" (mkH160 "c") = getIdByAddressAssetType "a" (mkH160 "b-c").
Proof. reflexivity. Qed.

(** * Properties of the restore form *)

Module RestoreWalletFacts.

Import RestoreWallet.

Section Facts.

Context {CodeUnit : Type} `{EqDecision CodeUnit}.
Variable matchNonSpace : list CodeUnit → option (list (list CodeUnit)).

Implicit Types (s : State (CodeUnit := CodeUnit)).

(** The state after a submit, spelled out. *)
Lemma after_handleSubmit s :
  after (handleSubmit matchNonSpace) s
  = if (length (passphrase s) <? 8)%nat then
      mkState (secretPhrase s) (passphrase s) (passphraseConfirm s)
        (Some false) (Some "Minimum length is 8 characters")
        (isPassphraseConfirmValid s) (passphraseConfirmError s)
    else if bool_decide (passphrase s = passphraseConfirm s) then
      mkState (secretPhrase s) (passphrase s) (passphraseConfirm s)
        (Some true) None (Some true) None
    else
      mkState (secretPhrase s) (passphrase s) (passphraseConfirm s)
        (Some true) None (Some false) (Some "Password does not match!").
Proof.
  unfold after, handleSubmit, checkPassphraseValid.
  destruct (length (passphrase s) <? 8)%nat; [reflexivity|].
  unfold checkPassphraseConfirm.
  destruct (decide (passphrase s = passphraseConfirm s)) as [Heq|Hne].
  - rewrite bool_decide_eq_false_2 by (intros Hne; exact (Hne Heq)).
    rewrite (bool_decide_eq_true_2 _ Heq). cbn.
    destruct (matchNonSpace (passphrase s)) as [words|]; [|reflexivity].
    destruct (negb (length words =? 12)%nat); reflexivity.
  - rewrite (bool_decide_eq_true_2 _ Hne), (bool_decide_eq_false_2 _ Hne).
    reflexivity.
Qed.

(** X19: what submitting the form does.  It never changes the three
    texts.  A passphrase of fewer than 8 code units is marked invalid with
    the message of the length rule, and the confirmation is then not
    checked: its validation state stays as it was.  A passphrase of 8 code
    units or more is marked valid, and the confirmation is marked valid
    exactly when it equals the passphrase, with the mismatch message
    otherwise.  The words of the passphrase play no part. *)
Theorem handleSubmit_outcome s :
  let s' := after (handleSubmit matchNonSpace) s in
  secretPhrase s' = secretPhrase s
  ∧ passphrase s' = passphrase s
  ∧ passphraseConfirm s' = passphraseConfirm s
  ∧ ((length (passphrase s) < 8)%nat →
       isPassphraseValid s' = Some false
       ∧ passphraseError s' = Some "Minimum length is 8 characters"
       ∧ isPassphraseConfirmValid s' = isPassphraseConfirmValid s
       ∧ passphraseConfirmError s' = passphraseConfirmError s)
  ∧ ((8 ≤ length (passphrase s))%nat →
       isPassphraseValid s' = Some true
       ∧ passphraseError s' = None
       ∧ isPassphraseConfirmValid s'
         = Some (bool_decide (passphrase s = passphraseConfirm s))
       ∧ passphraseConfirmError s'
         = if bool_decide (passphrase s = passphraseConfirm s) then None
           else Some "Password does not match!").
Proof.
  cbn zeta. rewrite after_handleSubmit.
  destruct (Nat.ltb_spec (length (passphrase s)) 8) as [Hshort|Hlong].
  - repeat split; intros; try reflexivity; lia.
  - destruct (bool_decide (passphrase s = passphraseConfirm s));
      repeat split; intros; try reflexivity; lia.
Qed.

(** X20: submitting twice is the same as submitting once. *)
Theorem handleSubmit_idempotent s :
  after (handleSubmit matchNonSpace) (after (handleSubmit matchNonSpace) s)
  = after (handleSubmit matchNonSpace) s.
Proof.
  rewrite (after_handleSubmit s).
  destruct (length (passphrase s) <? 8)%nat eqn:Hlen;
    [|destruct (bool_decide (passphrase s = passphraseConfirm s)) eqn:Heq];
    rewrite after_handleSubmit; cbn [passphrase passphraseConfirm secretPhrase
      isPassphraseConfirmValid passphraseConfirmError];
    rewrite Hlen, ?Heq; reflexivity.
Qed.

(** X21: editing the passphrase clears the validation state of the
    passphrase only.  After a submit that accepted both fields, typing a
    passphrase that differs from the confirmation leaves the confirmation
    marked valid although the two texts no longer match. *)
Theorem passphrase_edit_keeps_confirmation s (value : list CodeUnit) :
  (8 ≤ length (passphrase s))%nat →
  passphrase s = passphraseConfirm s →
  value ≠ passphraseConfirm s →
  let s' := after (handlePassphraseInput value)
              (after (handleSubmit matchNonSpace) s) in
  passphrase s' = value
  ∧ passphrase s' ≠ passphraseConfirm s'
  ∧ isPassphraseValid s' = None
  ∧ passphraseError s' = None
  ∧ isPassphraseConfirmValid s' = Some true
  ∧ passphraseConfirmError s' = None.
Proof.
  intros Hlong Hmatch Hvalue. cbn zeta. rewrite after_handleSubmit.
  assert ((length (passphrase s) <? 8)%nat = false) as -> by (apply Nat.ltb_ge; lia).
  rewrite (bool_decide_eq_true_2 _ Hmatch).
  cbn. repeat split. exact Hvalue.
Qed.

End Facts.

End RestoreWalletFacts.

(** * The vault handle *)

Section HandleFacts.

Variable CCKey : Type.
Variable CCKey_create : nat → result CCKey.

Local Abbreviation getCCKey := (Handle.getCCKey CCKey CCKey_create).
Local Abbreviation calls := (Handle.calls CCKey CCKey_create).
Local Abbreviation globalCCKey := (Handle.globalCCKey CCKey).
Local Abbreviation created := (Handle.created CCKey).
Local Abbreviation handle_invariant := (Handle.handle_invariant CCKey CCKey_create).

Lemma calls_S (n : nat) (p : Handle.Process CCKey) :
  calls (S n) p = (getCCKey (calls n p)).2.
Proof. reflexivity. Qed.

(** X22: the vault is created once.  After a call to [getCCKey] that
    returned a handle, every further call returns the same handle, leaves
    the process as it is and makes no call to [CCKey.create]. *)
Theorem getCCKey_once (p : Handle.Process CCKey) (ccKey : CCKey) :
  (getCCKey p).1 = Returns ccKey →
  ∀ n, calls n (getCCKey p).2 = (getCCKey p).2
       ∧ getCCKey (calls n (getCCKey p).2) = (Returns ccKey, (getCCKey p).2).
Proof.
  intros Hfirst.
  assert (getCCKey (getCCKey p).2 = (Returns ccKey, (getCCKey p).2)) as Hagain.
  { unfold Handle.getCCKey in *. destruct p as [[k|] created0]; cbn in *.
    - by injection Hfirst as ->.
    - destruct (CCKey_create created0) as [k|e]; cbn in *; [|discriminate].
      by injection Hfirst as ->. }
  intros n.
  assert (calls n (getCCKey p).2 = (getCCKey p).2) as Hcalls.
  { induction n as [|n IH]; [reflexivity|].
    rewrite calls_S, IH, Hagain. reflexivity. }
  rewrite Hcalls. split; [reflexivity|exact Hagain].
Qed.

Lemma handle_invariant_calls (n : nat) :
  handle_invariant (calls n (Handle.start CCKey)).
Proof.
  induction n as [|n IH].
  - intros j Hj. cbn in Hj. lia.
  - rewrite calls_S.
    set (p := Handle.calls _ _ n _) in *. unfold Handle.handle_invariant, Handle.getCCKey in *.
    destruct p as [[k|] created0]; cbn in *; [exact IH|].
    destruct (CCKey_create created0) as [k|e] eqn:Hcreate; cbn.
    + exists created0. split; [reflexivity|]. split; [exact Hcreate|exact IH].
    + intros j Hj. destruct (decide (j = created0)) as [->|Hne]; [eauto|].
      apply IH. lia.
Qed.

(** X23: the handle a process holds is the first one that [CCKey.create]
    returned: the calls to [CCKey.create] made before it all failed, and
    none was made after it. *)
Theorem getCCKey_first_success (n : nat) (ccKey : CCKey) :
  globalCCKey (calls n (Handle.start CCKey)) = Some ccKey →
  ∃ m, created (calls n (Handle.start CCKey)) = S m
    ∧ CCKey_create m = Resolves ccKey
    ∧ ∀ j, (j < m)%nat → ∃ e, CCKey_create j = Rejects e.
Proof.
  intros Hheld. pose proof (handle_invariant_calls n) as Hinv.
  unfold Handle.handle_invariant in Hinv. rewrite Hheld in Hinv. exact Hinv.
Qed.

End HandleFacts.

(** * Concrete runs of the further properties *)

Lemma demo_probeAt active role i :
  ∃ r, @probeAt (demoExternals active) role "tc" (head ["seed"]) (Some "pw") i
       = Resolves r.
Proof.
  unfold probeAt. destruct role; cbn; eexists; reflexivity.
Defined.

Lemma discover_entries_up_to_last_used_witness :
  ∃ walletAddresses st' records,
    @discover (demoExternals (activeAt [2; 7])) Platform "tc" demoStorage
    = Returns (walletAddresses, st')
    ∧ keysOf Platform st' = Some records
    ∧ length walletAddresses = S (N.to_nat 7)
    ∧ length records = S (N.to_nat 7)
    ∧ ∀ i, i ≤ 7 →
        walletAddresses !! N.to_nat i
        = Some (candidateAddress Platform (demoAddress Platform "tc" "pw") i)
        ∧ records !! N.to_nat i
          = Some (@candidateKey (demoExternals (activeAt [2; 7])) Platform
                    (demoPubkey Platform "pw") i).
Proof.
  apply (@discover_entries_up_to_last_used (demoExternals (activeAt [2; 7]))
           Platform "tc" demoStorage ["seed"] (demoPubkey Platform "pw")
           (demoAddress Platform "tc" "pw")
           (λ i, activeAt [2; 7] (demoAddress Platform "tc" "pw" i))).
  - reflexivity.
  - intros i Hi. reflexivity.
  - intros i Hi. reflexivity.
  - intros i Hi. apply demo_probe.
  - unfold restoringCheckingRange. lia.
  - reflexivity.
  - intros j [Hlow Hj]. below_10 j Hj; try reflexivity; lia.
Defined.

Lemma discover_aligned_witness :
  ∃ walletAddresses st' records,
    @discover (demoExternals (activeAt [2; 7])) Platform "tc" demoStorage
    = Returns (walletAddresses, st')
    ∧ keysOf Platform st' = Some records
    ∧ length walletAddresses = length records
    ∧ (length records ≤ N.to_nat restoringCheckingRange)%nat
    ∧ ∀ (k : nat) walletAddress record,
        walletAddresses !! k = Some walletAddress →
        records !! k = Some record →
        StoredKey.pathIndex record = N.of_nat k
        ∧ StoredKey.type record = Platform
        ∧ WalletAddress.name walletAddress = displayName Platform (N.of_nat k)
        ∧ WalletAddress.type walletAddress = Platform
        ∧ @encode (demoExternals (activeAt [2; 7])) Platform
            (StoredKey.key record) "tc"
          = Resolves (WalletAddress.address walletAddress).
Proof.
  apply (@discover_aligned (demoExternals (activeAt [2; 7]))
           Platform "tc" demoStorage ["seed"] (demoPubkey Platform "pw")
           (demoAddress Platform "tc" "pw")
           (λ i, activeAt [2; 7] (demoAddress Platform "tc" "pw" i))).
  - reflexivity.
  - intros i Hi. reflexivity.
  - intros i Hi. reflexivity.
  - intros i Hi. apply demo_probe.
Defined.

Lemma discover_keeps_used_index_witness :
  ∃ walletAddresses st' records,
    @discover (demoExternals (activeAt [2; 7])) Platform "tc" demoStorage
    = Returns (walletAddresses, st')
    ∧ keysOf Platform st' = Some records
    ∧ candidateAddress Platform (demoAddress Platform "tc" "pw") 2 ∈ walletAddresses
    ∧ @candidateKey (demoExternals (activeAt [2; 7])) Platform
        (demoPubkey Platform "pw") 2 ∈ records.
Proof.
  apply (@discover_keeps_used_index (demoExternals (activeAt [2; 7]))
           Platform "tc" demoStorage ["seed"] (demoPubkey Platform "pw")
           (demoAddress Platform "tc" "pw")
           (λ i, activeAt [2; 7] (demoAddress Platform "tc" "pw" i))).
  - reflexivity.
  - intros i Hi. reflexivity.
  - intros i Hi. reflexivity.
  - intros i Hi. apply demo_probe.
  - unfold restoringCheckingRange. lia.
  - reflexivity.
Defined.

(** The ledger is down for the account of index 3, after usage was seen
    at index 2. *)
Lemma discover_propagates_failure_witness :
  @discover
    (downExternals (activeAt [2])
       (String.eqb (demoAddress Platform "tc" "pw" 3)))
    Platform "tc" demoStorage
  = Throws "timeout".
Proof.
  apply (@discover_propagates_failure
           (downExternals (activeAt [2])
              (String.eqb (demoAddress Platform "tc" "pw" 3)))
           Platform "tc" demoStorage ["seed"] 3 "timeout").
  - reflexivity.
  - reflexivity.
  - intros i Hi.
    assert (i = 0 ∨ i = 1 ∨ i = 2) as [-> | [-> | ->]] by lia;
      eexists; vm_compute; reflexivity.
  - vm_compute. reflexivity.
Defined.

Lemma discover_frame_witness :
  passphrase (mkStorage (Some "pw") (platformKeys demoStorage) (Some [])) = passphrase demoStorage
  ∧ keysOf (otherRole Asset)
      (mkStorage (Some "pw") (platformKeys demoStorage) (Some []))
    = keysOf (otherRole Asset) demoStorage
  ∧ ∃ records,
      keysOf Asset (mkStorage (Some "pw") (platformKeys demoStorage) (Some []))
      = Some records
      ∧ length records = length (@nil WalletAddress.t).
Proof.
  apply (@discover_frame (demoExternals (activeAt [])) Asset "tc" demoStorage).
  vm_compute. reflexivity.
Defined.

Lemma issueNext_appends_witness :
  ∃ record,
    keysOf Platform
      (mkStorage (Some "pw")
         (Some [StoredKey.mk 0 Platform "old0"; StoredKey.mk 1 Platform "old1";
                StoredKey.mk 3 Platform "h:pub[seed,]m/44'/3276/0'/0/3"])
         (assetKeys demoStorage))
    = Some (default [] (keysOf Platform demoStorage) ++ [record])%list
    ∧ keysOf (otherRole Platform)
        (mkStorage (Some "pw")
           (Some [StoredKey.mk 0 Platform "old0"; StoredKey.mk 1 Platform "old1";
                  StoredKey.mk 3 Platform "h:pub[seed,]m/44'/3276/0'/0/3"])
           (assetKeys demoStorage))
      = keysOf (otherRole Platform) demoStorage
    ∧ passphrase
        (mkStorage (Some "pw")
           (Some [StoredKey.mk 0 Platform "old0"; StoredKey.mk 1 Platform "old1";
                  StoredKey.mk 3 Platform "h:pub[seed,]m/44'/3276/0'/0/3"])
           (assetKeys demoStorage))
      = passphrase demoStorage
    ∧ WalletAddress.type
        (WalletAddress.mk "P-address 3" "tcc:h:pub[seed,]m/44'/3276/0'/0/3" Platform)
      = Platform
    ∧ WalletAddress.name
        (WalletAddress.mk "P-address 3" "tcc:h:pub[seed,]m/44'/3276/0'/0/3" Platform)
      = displayName Platform (StoredKey.pathIndex record).
Proof.
  apply (@issueNext_appends (demoExternals (activeAt [])) Platform "tc" demoStorage).
  vm_compute. reflexivity.
Defined.

(** Two issuances on a fresh store record the indices 1 and 3. *)
Lemma issueNext_monotonic_witness :
  ∃ record1 record2,
    keysOf Asset
      (mkStorage (Some "pw") None
         (Some [StoredKey.mk 1 Platform "h:pub[seed,]m/44'/3276/1'/0/0";
                StoredKey.mk 3 Platform "h:pub[seed,]m/44'/3276/1'/0/2"]))
    = Some (default [] (keysOf Asset freshStorage) ++ [record1; record2])%list
    ∧ StoredKey.pathIndex record2 = StoredKey.pathIndex record1 + 2
    ∧ ∀ lastKey, keysOf Asset freshStorage ≫= last = Some lastKey →
        StoredKey.pathIndex lastKey < StoredKey.pathIndex record1.
Proof.
  apply (@issueNext_monotonic (demoExternals (activeAt [])) Asset "tc" freshStorage
           (WalletAddress.mk "A-address 1" "tca:h:pub[seed,]m/44'/3276/1'/0/0" Asset)
           (mkStorage (Some "pw") None
              (Some [StoredKey.mk 1 Platform "h:pub[seed,]m/44'/3276/1'/0/0"]))
           (WalletAddress.mk "A-address 3" "tca:h:pub[seed,]m/44'/3276/1'/0/2" Asset)).
  - vm_compute. reflexivity.
  - vm_compute. reflexivity.
Defined.

Lemma issueNext_reads_own_records_witness :
  issued Platform
    (@issueNext (demoExternals (activeAt [])) Platform "tc" demoStorage)
  = issued Platform
      (@issueNext (demoExternals (activeAt [])) Platform "tc"
         (mkStorage None (platformKeys demoStorage) None)).
Proof.
  apply (@issueNext_reads_own_records (demoExternals (activeAt [])) Platform "tc"
           demoStorage (mkStorage None (platformKeys demoStorage) None)).
  reflexivity.
Defined.

Lemma issueNext_after_discover_witness :
  ∃ walletAddresses st1 walletAddress st2 key,
    @discover (demoExternals (activeAt [2; 7])) Platform "tc" demoStorage
    = Returns (walletAddresses, st1)
    ∧ @issueNext (demoExternals (activeAt [2; 7])) Platform "tc" st1
      = Returns (walletAddress, st2)
    ∧ WalletAddress.name walletAddress = displayName Platform (7 + 2)
    ∧ keysOf Platform st2
      = Some ((@candidateKey (demoExternals (activeAt [2; 7])) Platform
                 (demoPubkey Platform "pw") <$> indices 0 (S (N.to_nat 7)))
              ++ [StoredKey.mk (7 + 2) Platform key])%list
    ∧ StoredKey.pathIndex <$>
        ((@candidateKey (demoExternals (activeAt [2; 7])) Platform
            (demoPubkey Platform "pw") <$> indices 0 (S (N.to_nat 7)))
         ++ [StoredKey.mk (7 + 2) Platform key])%list
      = (indices 0 (S (N.to_nat 7)) ++ [7 + 2])%list.
Proof.
  apply (@issueNext_after_discover (demoExternals (activeAt [2; 7]))
           Platform "tc" demoStorage ["seed"] (demoPubkey Platform "pw")
           (demoAddress Platform "tc" "pw")
           (λ i, activeAt [2; 7] (demoAddress Platform "tc" "pw" i))).
  - reflexivity.
  - intros i Hi. reflexivity.
  - intros i Hi. reflexivity.
  - intros i Hi. apply demo_probe.
  - intros path. apply demo_vault_derives.
  - intros key. apply demo_encoder_accepts.
  - unfold restoringCheckingRange. lia.
  - reflexivity.
  - intros j [Hlow Hj]. below_10 j Hj; try reflexivity; lia.
Defined.

Lemma displayName_inj_witness : Asset = Asset ∧ 12 = 12.
Proof.
  apply (displayName_inj Asset Asset 12 12). reflexivity.
Defined.


Lemma chainReducer_store_overrides_witness :
  chainReducer 20
    (Some (chainReducer 10 (Some demoChainState) (SetFetchingPendingTxList "a")))
    (CachePendingTxList "a" [])
  = chainReducer 20 (Some demoChainState) (CachePendingTxList "a" []).
Proof.
  apply (chainReducer_store_overrides 10 20 demoChainState
           (SetFetchingPendingTxList "a") (CachePendingTxList "a" [])).
  - reflexivity.
  - reflexivity.
Defined.

Lemma chainReducer_fetching_idempotent_witness :
  chainReducer 20
    (Some (chainReducer 10 (Some demoChainState)
             (SetFetchingTxListById "a" (mkH160 "00ff"))))
    (SetFetchingTxListById "a" (mkH160 "00ff"))
  = chainReducer 10 (Some demoChainState) (SetFetchingTxListById "a" (mkH160 "00ff")).
Proof.
  apply (chainReducer_fetching_idempotent 10 20 demoChainState
           (SetFetchingTxListById "a" (mkH160 "00ff"))).
  reflexivity.
Defined.

Lemma getIdByAddressAssetType_inj_witness :
  "tcaqyqckq0zgdxgpck6tjdg4qmp52p2vx3qaexqnegylk" = "tcaqyqckq0zgdxgpck6tjdg4qmp52p2vx3qaexqnegylk"
  ∧ mkH160 "00ff" = mkH160 "00ff".
Proof.
  apply (getIdByAddressAssetType_inj
           "tcaqyqckq0zgdxgpck6tjdg4qmp52p2vx3qaexqnegylk"
           "tcaqyqckq0zgdxgpck6tjdg4qmp52p2vx3qaexqnegylk"
           (mkH160 "00ff") (mkH160 "00ff")).
  - reflexivity.
  - reflexivity.
  - reflexivity.
Defined.

Lemma passphrase_edit_keeps_confirmation_witness :
  let s := RestoreWallet.mkState [] [1; 2; 3; 4; 5; 6; 7; 8]%nat
             [1; 2; 3; 4; 5; 6; 7; 8]%nat None None None None in
  let s' := RestoreWallet.after (RestoreWallet.handlePassphraseInput [9]%nat)
              (RestoreWallet.after (RestoreWallet.handleSubmit (λ _, None)) s) in
  RestoreWallet.passphrase s' = [9]%nat
  ∧ RestoreWallet.passphrase s' ≠ RestoreWallet.passphraseConfirm s'
  ∧ RestoreWallet.isPassphraseValid s' = None
  ∧ RestoreWallet.passphraseError s' = None
  ∧ RestoreWallet.isPassphraseConfirmValid s' = Some true
  ∧ RestoreWallet.passphraseConfirmError s' = None.
Proof.
  intros s.
  apply (RestoreWalletFacts.passphrase_edit_keeps_confirmation (λ _, None) s [9]%nat).
  - simpl. lia.
  - reflexivity.
  - discriminate.
Defined.

Lemma getCCKey_once_witness :
  Handle.calls string demoCreate 3
    (Handle.getCCKey string demoCreate (Handle.mkProcess string None 1)).2
  = (Handle.getCCKey string demoCreate (Handle.mkProcess string None 1)).2
  ∧ Handle.getCCKey string demoCreate
      (Handle.calls string demoCreate 3
         (Handle.getCCKey string demoCreate (Handle.mkProcess string None 1)).2)
    = (Returns "vault",
       (Handle.getCCKey string demoCreate (Handle.mkProcess string None 1)).2).
Proof.
  apply (getCCKey_once string demoCreate (Handle.mkProcess string None 1) "vault"
           eq_refl 3).
Defined.

Lemma getCCKey_first_success_witness :
  ∃ m, Handle.created string (Handle.calls string demoCreate 4 (Handle.start string))
       = S m
    ∧ demoCreate m = Resolves "vault"
    ∧ ∀ j, (j < m)%nat → ∃ e, demoCreate j = Rejects e.
Proof.
  apply (getCCKey_first_success string demoCreate 4 "vault"). reflexivity.
Defined.
